(** * Retro dungeon: the turn and combat engine of [src/game.cpp]

    A shallow embedding of the dungeon crawler's runtime core: the tile
    grid, the room generator, the player and enemy records, the session
    controller with its movement, combat and descent transitions, and the
    line-oriented save format.

    Conventions of the embedding.
    - A C++ [int] is a [Z]; arithmetic goes through [int_add] and [int_sub],
      which wrap to 32 bits the way two's-complement hardware does.  Signed
      overflow is undefined in C++, so statements about exact amounts carry
      the hypothesis that the result is representable.
    - A computation that can dereference an empty [unique_ptr], index a
      vector out of range or read an indeterminate local returns [option];
      [None] stands for undefined behaviour.
    - The random engine is an interface ([RandomSource]): a state and a
      bounded draw, the contract of [std::uniform_int_distribution].
    - What [retro_dungeon/game.hpp] declares (constants, inline members) is
      absent from the sources at hand; each such item is marked. *)

From stdpp Require Import base option list strings gmap.
From Stdlib Require Import ZArith Lia Ascii.

Local Open Scope Z_scope.

(** ** Machine integers *)

Definition INT_MIN : Z := - 2 ^ 31.
Definition INT_MAX : Z := 2 ^ 31 - 1.

Definition in_int (z : Z) : Prop := INT_MIN <= z <= INT_MAX.

Definition wrap_int (z : Z) : Z := (z + 2 ^ 31) mod 2 ^ 32 - 2 ^ 31.

Definition int_add (a b : Z) : Z := wrap_int (a + b).
Definition int_sub (a b : Z) : Z := wrap_int (a - b).

(** ** Plain data *)

(** [Position] is [std::pair<int, int>]: first is x, second is y. *)
Definition Position : Type := Z * Z.

(** Modelled from the spec: [EntityId] is declared in the header; the spec
    calls it a unique identifier, here a natural number counted upwards. *)
Definition EntityId : Type := N.

Inductive Direction := North | South | East | West.

Inductive EnemyType := Goblin | Orc | Skeleton | Zombie | Dragon | Rat | Spider.

Inductive TileType := Floor | Wall | Door | StairsUp | StairsDown | Trap.

Inductive GameState := MainMenu | Playing | GameOver.

(** Modelled from the spec: the header's [ItemType]; the sources only ever
    build potions. *)
Inductive ItemType := Potion.

#[global] Instance Direction_eq_dec : EqDecision Direction.
Proof. solve_decision. Defined.
#[global] Instance EnemyType_eq_dec : EqDecision EnemyType.
Proof. solve_decision. Defined.
#[global] Instance TileType_eq_dec : EqDecision TileType.
Proof. solve_decision. Defined.
#[global] Instance GameState_eq_dec : EqDecision GameState.
Proof. solve_decision. Defined.

(** ** Constants of the header

    [MAP_WIDTH], [MAP_HEIGHT] and [INVALID_POSITION] are declared in the
    header and the spec gives no value for them: they are parameters. *)
Class Constants := {
  MAP_WIDTH : Z;
  MAP_HEIGHT : Z;
  INVALID_POSITION : Position
}.

(** Modelled from the spec: [MAX_MESSAGES] is declared in the header; the
    spec fixes the capacity of the message log at 5. *)
Definition MAX_MESSAGES : nat := 5.

(** ** The random engine

    [uniform_int a b r] is one call [dist(rng)] of a
    [std::uniform_int_distribution<int> dist(a, b)]: it returns the number
    drawn and the advanced engine.  The library promises a result within
    [a, b] when [a <= b]. *)
Class RandomSource (R : Type) := {
  uniform_int : Z -> Z -> R -> Z * R;
  uniform_int_range : forall a b r, a <= b -> a <= (uniform_int a b r).1 <= b
}.

(** ** Decimal text of an [int]: [std::to_string] and [operator<<] *)

Definition digit_char (d : N) : ascii := ascii_of_N (48 + d).

Fixpoint digits_acc (fuel : nat) (n : N) (acc : string) : string :=
  let acc' := String (digit_char (n mod 10)) acc in
  match fuel with
  | O => acc'
  | S fuel' => if (n <? 10)%N then acc' else digits_acc fuel' (n / 10) acc'
  end.

Definition digits_of_N (n : N) : string :=
  digits_acc (N.to_nat (N.log2 n)) n "".

Definition to_string (z : Z) : string :=
  if z <? 0 then String "-" (digits_of_N (Z.to_N (- z)))
  else digits_of_N (Z.to_N z).

(** ** Items *)

Module Item.
(** Modelled from the spec: the header's [Item]; the three numbers are
    the primary value, the secondary value and the cost, in the order of
    the constructor call in [Game::spawnItems]. *)
Record t := make {
  name : string;
  type : ItemType;
  symbol : ascii;
  value1 : Z;
  value2 : Z;
  cost : Z
}.
End Item.

(** ** Enemies *)

Module Enemy.
Record t := make {
  id : EntityId;
  type : EnemyType;
  pos : Position;
  name : string;
  symbol : ascii;
  health : Z;
  maxHealth : Z;
  attackPower : Z;
  defense : Z;
  expReward : Z;
  goldReward : Z
}.

(** [Enemy::Enemy(EntityId, EnemyType, Position)] *)
Definition new (i : EntityId) (ty : EnemyType) (p : Position) : t :=
  let mk nm sym hp maxHp atk def := make i ty p nm sym hp maxHp atk def 10 5 in
  match ty with
  | Goblin => mk "Goblin" "g"%char 20 20 5 2
  | Orc => mk "Orc" "o"%char 40 40 10 5
  | Skeleton => mk "Skeleton" "s"%char 25 25 8 3
  | Zombie => mk "Zombie" "z"%char 35 35 6 8
  | Dragon => mk "Dragon" "D"%char 0 200 30 20
  | Rat => mk "Rat" "r"%char 5 5 2 0
  | Spider => mk "Spider" "x"%char 15 15 6 1
  end.

Definition set_health (v : Z) (e : t) : t :=
  make (id e) (type e) (pos e) (name e) (symbol e) v (maxHealth e)
       (attackPower e) (defense e) (expReward e) (goldReward e).

(** Modelled from the spec: [Enemy::takeDamage] is an inline member of
    the header; the spec has the health decrease by exactly the damage. *)
Definition takeDamage (dmg : Z) (e : t) : t :=
  set_health (int_sub (health e) dmg) e.

(** Modelled from the spec: [Enemy::isAlive] is an inline member of the
    header; the spec counts an entity dead once its health is 0 or less. *)
Definition isAlive (e : t) : bool := 0 <? health e.
End Enemy.

(** ** The player *)

Module Player.
Record t := make {
  id : EntityId;
  name : string;
  pos : Position;
  health : Z;
  maxHealth : Z;
  attackPower : Z;
  defense : Z;
  level : Z;
  experience : Z;
  gold : Z;
  dungeonLevel : Z;
  inventory : list Item.t
}.

(** [Player::Player(EntityId, std::string, Position)] *)
Definition new (i : EntityId) (n : string) (p : Position) : t :=
  make i n p 100 100 5 2 1 0 0 1 [].

Definition set_pos (v : Position) (p : t) : t :=
  make (id p) (name p) v (health p) (maxHealth p) (attackPower p)
       (defense p) (level p) (experience p) (gold p) (dungeonLevel p)
       (inventory p).

Definition set_health (v : Z) (p : t) : t :=
  make (id p) (name p) (pos p) v (maxHealth p) (attackPower p)
       (defense p) (level p) (experience p) (gold p) (dungeonLevel p)
       (inventory p).

Definition set_experience (v : Z) (p : t) : t :=
  make (id p) (name p) (pos p) (health p) (maxHealth p) (attackPower p)
       (defense p) (level p) v (gold p) (dungeonLevel p) (inventory p).

Definition set_gold (v : Z) (p : t) : t :=
  make (id p) (name p) (pos p) (health p) (maxHealth p) (attackPower p)
       (defense p) (level p) (experience p) v (dungeonLevel p)
       (inventory p).

Definition set_dungeonLevel (v : Z) (p : t) : t :=
  make (id p) (name p) (pos p) (health p) (maxHealth p) (attackPower p)
       (defense p) (level p) (experience p) (gold p) v (inventory p).

Definition set_inventory (v : list Item.t) (p : t) : t :=
  make (id p) (name p) (pos p) (health p) (maxHealth p) (attackPower p)
       (defense p) (level p) (experience p) (gold p) (dungeonLevel p) v.

(** The eight numeric fields written by [Game::saveGame], in file order. *)
Definition stats (p : t) : list Z :=
  [health p; maxHealth p; attackPower p; defense p;
   level p; experience p; gold p; dungeonLevel p].

(** Modelled from the spec: [Player::takeDamage] is an inline member of
    the header; the health decreases by exactly the damage. *)
Definition takeDamage (dmg : Z) (p : t) : t :=
  set_health (int_sub (health p) dmg) p.

(** Modelled from the spec: [Player::isAlive] is an inline member of the
    header; the session is over once the health is 0 or less. *)
Definition isAlive (p : t) : bool := 0 <? health p.

(** [Player::heal] *)
Definition heal (amt : Z) (p : t) : t :=
  set_health (Z.min (int_add (health p) amt) (maxHealth p)) p.

(** [Player::addItem]: the result is the [bool] returned. *)
Definition addItem (item : Item.t) (p : t) : t * bool :=
  if (length (inventory p) <=? 20)%nat
  then (set_inventory (inventory p ++ [item]) p, true)
  else (p, false).

(** [Player::move]: the result is the [bool] returned, always [true]. *)
Definition move (dir : Direction) (p : t) : t * bool :=
  let '(x, y) := pos p in
  let '(x, y) :=
    match dir with
    | North => (x, int_sub y 1)
    | South => (x, int_add y 1)
    | East => (int_add x 2, y)
    | West => (int_sub x 1, y)
    end in
  (set_pos (x, y) p, true).
End Player.

(** ** The tile grid *)

Module Tile.
Record t := make {
  type : TileType;
  symbol : ascii;
  walkable : bool
}.
End Tile.

Module Map.
(** [m_tiles] is the [std::vector<std::vector<Tile>>]: a list of rows. *)
Record t := make {
  m_width : Z;
  m_height : Z;
  m_tiles : list (list Tile.t);
  m_stairsDown : Position
}.

Definition set_tiles (v : list (list Tile.t)) (m : t) : t :=
  make (m_width m) (m_height m) v (m_stairsDown m).

(** [Map::setStairsDown], the header's setter of [m_stairsDown]. *)
Definition setStairsDown (v : Position) (m : t) : t :=
  make (m_width m) (m_height m) (m_tiles m) v.

(** [Map::Map(int w, int h)].  The [std::vector] constructors throw on a
    negative size; the model, meant for sizes from 0 up, has no rows or no
    columns then. *)
Definition new `{Constants} (w h : Z) : t :=
  make w h
       (replicate (Z.to_nat h)
          (replicate (Z.to_nat w) (Tile.make Wall "#"%char false)))
       INVALID_POSITION.

(** [Map::getTile]: [m_tiles[y][x]], undefined out of range. *)
Definition getTile (m : t) (x y : Z) : option Tile.t :=
  if (0 <=? x) && (0 <=? y)
  then row ← m_tiles m !! Z.to_nat y; row !! Z.to_nat x
  else None.

(** [Map::isValidPosition] *)
Definition isValidPosition (m : t) (x y : Z) : bool :=
  (0 <=? x) && (x <? m_width m) && (0 <=? y) && (y <? m_height m).

(** [Map::isWalkable] *)
Definition isWalkable (m : t) (x y : Z) : bool :=
  if negb (isValidPosition m x y) then false
  else from_option Tile.walkable false (getTile m x y).

(** [Map::setTile] *)
Definition setTile (x y : Z) (ty : TileType) (m : t) : t :=
  if negb (isValidPosition m x y) then m
  else
    let tile :=
      match ty with
      | Floor => Tile.make ty "."%char true
      | Wall => Tile.make ty "#"%char false
      | Door => Tile.make ty "+"%char true
      | StairsUp => Tile.make ty "<"%char true
      | StairsDown => Tile.make ty ">"%char true
      | Trap => Tile.make ty "^"%char true
      end in
    set_tiles (alter (fun row => <[Z.to_nat x := tile]> row)
                     (Z.to_nat y) (m_tiles m)) m.

(** [Map::clear] *)
Definition clear `{Constants} (m : t) : t :=
  make (m_width m) (m_height m)
       (map (map (fun _ => Tile.make Wall "#"%char false)) (m_tiles m))
       INVALID_POSITION.
End Map.

(** [for (int i = lo; i < hi; ++i) body(i)], threading the state [s]. *)
Definition for_range {S : Type} (lo hi : Z) (body : Z -> S -> S) (s : S) : S :=
  foldl (fun acc i => body i acc) s (seqZ lo (hi - lo)).

(** ** The generator *)

Module DungeonGenerator.
Record t (R : Type) := make {
  m_seed : Z;
  m_rng : R
}.
Arguments make {R} _ _.
Arguments m_seed {R} _.
Arguments m_rng {R} _.

Section WithEngine.
Context `{Constants} {R : Type} `{!RandomSource R}.

Definition set_rng (v : R) (gen : t R) : t R := make (m_seed gen) v.

(** [DungeonGenerator::generate].  The two loop guards [y < roomY +
    roomH && y < height - 1] are one bound, the smaller of the two. *)
Definition generate (width height : Z) (gen : t R) : Map.t * t R :=
  let map := Map.new width height in
  let roomX := width ÷ 4 in
  let roomY := height ÷ 4 in
  let roomW := width ÷ 2 in
  let roomH := height ÷ 2 in
  let map :=
    for_range roomY (Z.min (int_add roomY roomH) (int_sub height 1))
      (fun y map =>
         for_range roomX (Z.min (int_add roomX roomW) (int_sub width 1))
           (fun x map => Map.setTile x y Floor map) map) map in
  let '(sx, rng1) :=
    uniform_int roomX (int_sub (int_add roomX roomW) 1) (m_rng gen) in
  let '(sy, rng2) :=
    uniform_int roomY (int_sub (int_add roomY roomH) 1) rng1 in
  let stairs : Position := (sx, sy) in
  let map := Map.setTile stairs.1 stairs.2 StairsDown map in
  let map := Map.setStairsDown stairs map in
  (map, set_rng rng2 gen).
End WithEngine.
End DungeonGenerator.

(** ** Text streams: what [std::getline] and [operator>>] do on a file

    An input stream is the unread text and the two state bits the code
    depends on.  An extraction that does not store leaves its target as it
    was, which for the locals of [Game::loadGame] means indeterminate. *)

Definition newline : ascii := ascii_of_nat 10.

(** The escape character, [\033], that opens a terminal control sequence. *)
Definition escape : ascii := ascii_of_nat 27.

Definition is_space (c : ascii) : bool :=
  let n := nat_of_ascii c in
  ((n =? 32) || ((9 <=? n) && (n <=? 13)))%nat.

Definition is_digit (c : ascii) : bool :=
  let n := nat_of_ascii c in ((48 <=? n) && (n <=? 57))%nat.

Definition digit_value (c : ascii) : N := N_of_ascii c - 48.

Fixpoint skip_ws (b : string) : string :=
  match b with
  | String c rest => if is_space c then skip_ws rest else b
  | EmptyString => b
  end.

Fixpoint read_digits (b : string) (acc : N) : N * string :=
  match b with
  | String c rest =>
      if is_digit c then read_digits rest (acc * 10 + digit_value c)%N
      else (acc, b)
  | EmptyString => (acc, b)
  end.

(** The characters before the first line feed, and the text after it
    ([None] when the end of the text comes first). *)
Fixpoint read_line (b : string) : string * option string :=
  match b with
  | String c rest =>
      if decide (c = newline) then (EmptyString, Some rest)
      else let '(line, tl) := read_line rest in (String c line, tl)
  | EmptyString => (EmptyString, None)
  end.

Definition starts_with_digit (b : string) : bool :=
  match b with
  | String c _ => is_digit c
  | EmptyString => false
  end.

Definition is_empty (b : string) : bool :=
  match b with
  | EmptyString => true
  | _ => false
  end.

Module IStream.
Record t := make {
  buf : string;
  eofbit : bool;
  failbit : bool
}.

Definition open (content : string) : t := make content false false.

Definition good (s : t) : bool := negb (eofbit s) && negb (failbit s).

(** [std::getline(file, str)]: [str] keeps its value when the stream is
    not good on entry. *)
Definition getline (s : t) (str : string) : string * t :=
  if negb (good s) then (str, make (buf s) (eofbit s) true)
  else
    match read_line (buf s) with
    | (line, Some rest) => (line, make rest false false)
    | (line, None) => (line, make EmptyString true (is_empty line))
    end.

(** [file >> n] for an [int n]: [Some v] when [v] is stored into [n],
    [None] when [n] is left untouched.  Without a digit 0 is stored and
    the stream fails; a number out of range is stored clamped and the
    stream fails. *)
Definition extract_int (s : t) : option Z * t :=
  if negb (good s) then (None, make (buf s) (eofbit s) true)
  else
    match skip_ws (buf s) with
    | EmptyString => (None, make EmptyString true true)
    | String c rest as b =>
        let '(neg, b1) :=
          if decide (c = "-"%char) then (true, rest)
          else if decide (c = "+"%char) then (false, rest)
          else (false, b) in
        let '(n, b2) := read_digits b1 0%N in
        if negb (starts_with_digit b1) then (Some 0, make b2 (is_empty b2) true)
        else
          let v := if neg : bool then - Z.of_N n else Z.of_N n in
          if v <? INT_MIN then (Some INT_MIN, make b2 (is_empty b2) true)
          else if INT_MAX <? v then (Some INT_MAX, make b2 (is_empty b2) true)
          else (Some v, make b2 (is_empty b2) false)
    end.
End IStream.

(** The files the session can reach: their contents by name, and the names
    that cannot be opened for writing.  A name is a file: two names never
    reach the same file.  What happens when a write into an open file
    fails is not modelled. *)
Record FileSystem := {
  files : gmap string string;
  unwritable : gset string
}.

(** ** The session controller *)

Module Game.
(** The members of [Game]; each [unique_ptr] is an [option]. *)
Record t (R : Type) := make {
  m_state : GameState;
  m_nextEntityId : EntityId;
  m_generator : option (DungeonGenerator.t R);
  m_player : option Player.t;
  m_map : option Map.t;
  m_enemies : list Enemy.t;
  m_floorItems : list Item.t;
  m_messages : list string
}.
Arguments make {R} _ _ _ _ _ _ _ _.
Arguments m_state {R} _.
Arguments m_nextEntityId {R} _.
Arguments m_generator {R} _.
Arguments m_player {R} _.
Arguments m_map {R} _.
Arguments m_enemies {R} _.
Arguments m_floorItems {R} _.
Arguments m_messages {R} _.

Section WithEngine.
Context `{Constants} {R : Type} `{!RandomSource R}.

Definition set_state (v : GameState) (g : t R) : t R :=
  make v (m_nextEntityId g) (m_generator g) (m_player g) (m_map g)
       (m_enemies g) (m_floorItems g) (m_messages g).

Definition set_nextEntityId (v : EntityId) (g : t R) : t R :=
  make (m_state g) v (m_generator g) (m_player g) (m_map g)
       (m_enemies g) (m_floorItems g) (m_messages g).

Definition set_generator (v : option (DungeonGenerator.t R)) (g : t R) : t R :=
  make (m_state g) (m_nextEntityId g) v (m_player g) (m_map g)
       (m_enemies g) (m_floorItems g) (m_messages g).

Definition set_player (v : option Player.t) (g : t R) : t R :=
  make (m_state g) (m_nextEntityId g) (m_generator g) v (m_map g)
       (m_enemies g) (m_floorItems g) (m_messages g).

Definition set_map (v : option Map.t) (g : t R) : t R :=
  make (m_state g) (m_nextEntityId g) (m_generator g) (m_player g) v
       (m_enemies g) (m_floorItems g) (m_messages g).

Definition set_enemies (v : list Enemy.t) (g : t R) : t R :=
  make (m_state g) (m_nextEntityId g) (m_generator g) (m_player g)
       (m_map g) v (m_floorItems g) (m_messages g).

Definition set_floorItems (v : list Item.t) (g : t R) : t R :=
  make (m_state g) (m_nextEntityId g) (m_generator g) (m_player g)
       (m_map g) (m_enemies g) v (m_messages g).

Definition set_messages (v : list string) (g : t R) : t R :=
  make (m_state g) (m_nextEntityId g) (m_generator g) (m_player g)
       (m_map g) (m_enemies g) (m_floorItems g) v.

(** [Game::Game()] *)
Definition new : t R := make MainMenu 1%N None None None [] [] [].

(** [Game::initialize]; [engine] is the generator the default
    constructor of [DungeonGenerator] builds from [std::random_device]. *)
Definition initialize (engine : DungeonGenerator.t R) (g : t R) : t R * bool :=
  (set_generator (Some engine) g, true).

(** [Game::run] *)
Definition run (g : t R) : t R := set_state Playing g.

(** [Game::shutdown] *)
Definition shutdown (g : t R) : t R :=
  set_messages [] (set_enemies [] (set_map None (set_player None g))).

(** [Game::addMessage] *)
Definition addMessage (msg : string) (g : t R) : t R :=
  let msgs := m_messages g ++ [msg] in
  set_messages
    (if (MAX_MESSAGES <? length msgs)%nat then drop 1 msgs else msgs) g.

(** The spawn cell set by [newGame] and [nextLevel]. *)
Definition spawn_offset : Position :=
  (int_add (MAP_WIDTH ÷ 4) 1, int_add (MAP_HEIGHT ÷ 4) 1).

(** [Game::spawnEnemies], with the loop unrolled [n] times. *)
Fixpoint spawnEnemies_loop (n : nat) (g : t R) : option (t R) :=
  match n with
  | O => Some g
  | S n' =>
      gen ← m_generator g;
      let types := [Goblin; Orc; Skeleton; Zombie; Rat; Spider; Dragon] in
      let '(x, rng1) :=
        uniform_int 1 (int_sub MAP_WIDTH 2) (DungeonGenerator.m_rng gen) in
      let '(y, rng2) := uniform_int 1 (int_sub MAP_HEIGHT 2) rng1 in
      let p : Position := (x, y) in
      let '(k, rng3) := uniform_int 0 6 rng2 in
      ty ← (if 0 <=? k then types !! Z.to_nat k else None);
      let e := Enemy.new (m_nextEntityId g) ty p in
      spawnEnemies_loop n'
        (set_enemies (m_enemies g ++ [e])
           (set_nextEntityId (m_nextEntityId g + 1)%N
              (set_generator
                 (Some (DungeonGenerator.set_rng rng3 gen)) g)))
  end.

Definition spawnEnemies (count : Z) (g : t R) : option (t R) :=
  spawnEnemies_loop (Z.to_nat count) g.

(** [Game::spawnItems], with the loop unrolled [n] times; the position
    drawn is not stored anywhere. *)
Fixpoint spawnItems_loop (n : nat) (g : t R) : option (t R) :=
  match n with
  | O => Some g
  | S n' =>
      gen ← m_generator g;
      let '(x, rng1) :=
        uniform_int 1 (int_sub MAP_WIDTH 2) (DungeonGenerator.m_rng gen) in
      let '(y, rng2) := uniform_int 1 (int_sub MAP_HEIGHT 2) rng1 in
      let item := Item.make "Health Potion" Potion "!"%char 20 0 25 in
      spawnItems_loop n'
        (set_floorItems (m_floorItems g ++ [item])
           (set_generator
              (Some (DungeonGenerator.set_rng rng2 gen)) g))
  end.

Definition spawnItems (count : Z) (g : t R) : option (t R) :=
  spawnItems_loop (Z.to_nat count) g.

(** [Game::newGame] *)
Definition newGame (playerName : string) (g : t R) : option (t R) :=
  let p := Player.new (m_nextEntityId g) playerName (5, 5) in
  let g := set_player (Some p)
             (set_nextEntityId (m_nextEntityId g + 1)%N g) in
  gen ← m_generator g;
  let '(map, gen) := DungeonGenerator.generate MAP_WIDTH MAP_HEIGHT gen in
  let g := set_map (Some map) (set_generator (Some gen) g) in
  let g := set_player (Some (Player.set_pos spawn_offset p)) g in
  g ← spawnEnemies 5 g;
  g ← spawnItems 3 g;
  let g := set_state Playing g in
  let g := set_messages [] g in
  Some (addMessage ("Welcome to the dungeon, " +:+ playerName +:+ "!") g).

(** [Game::getEnemyAt]: the index into [m_enemies] of the enemy the
    returned pointer refers to, [None] for [nullptr]. *)
Definition getEnemyAt (pos : Position) (g : t R) : option nat :=
  fst <$> list_find
            (fun e => Enemy.pos e = pos /\ Enemy.isAlive e = true)
            (m_enemies g).

(** [Game::removeDeadEnemies]: the first dead enemy is erased. *)
Definition removeDeadEnemies (g : t R) : t R :=
  match list_find (fun e => Enemy.isAlive e = false) (m_enemies g) with
  | Some (i, _) => set_enemies (delete i (m_enemies g)) g
  | None => g
  end.

(** [Game::update] *)
Definition update (g : t R) : t R := removeDeadEnemies g.

(** [Game::handleCombat]; [i] is the index of [enemy] in [m_enemies],
    so that the writes through the reference land in the session. *)
Definition handleCombat (i : nat) (g : t R) : option (t R) :=
  p ← m_player g;
  e ← m_enemies g !! i;
  let damage := Player.attackPower p in
  let e := Enemy.takeDamage damage e in
  let g := set_enemies (<[i := e]> (m_enemies g)) g in
  let g := addMessage ("You hit " +:+ Enemy.name e +:+ " for "
                       +:+ to_string damage +:+ " damage!") g in
  if Enemy.isAlive e then
    let enemyDmg :=
      Z.max 1 (int_sub (Enemy.attackPower e) (Player.defense p)) in
    let p := Player.takeDamage enemyDmg p in
    let g := set_player (Some p) g in
    let g := addMessage (Enemy.name e +:+ " hits you for "
                         +:+ to_string enemyDmg +:+ " damage!") g in
    if negb (Player.isAlive p)
    then Some (addMessage "You have been slain!" (set_state GameOver g))
    else Some g
  else
    let p := Player.set_experience
               (int_add (Player.experience p) (Enemy.expReward e)) p in
    let p := Player.set_gold
               (int_add (Player.gold p) (Enemy.goldReward e)) p in
    let g := set_player (Some p) g in
    Some (addMessage ("You defeated " +:+ Enemy.name e +:+ "! +"
                      +:+ to_string (Enemy.expReward e) +:+ " XP") g).

(** [Game::nextLevel] *)
Definition nextLevel (g : t R) : option (t R) :=
  p ← m_player g;
  let p := Player.set_dungeonLevel (int_add (Player.dungeonLevel p) 1) p in
  gen ← m_generator g;
  let '(map, gen) := DungeonGenerator.generate MAP_WIDTH MAP_HEIGHT gen in
  let g := set_map (Some map) (set_generator (Some gen) g) in
  let p := Player.set_pos spawn_offset p in
  let g := set_player (Some p) g in
  let g := set_enemies [] g in
  g ← spawnEnemies (int_add 5 (Player.dungeonLevel p)) g;
  g ← spawnItems 3 g;
  Some (addMessage ("You descend to dungeon level "
                    +:+ to_string (Player.dungeonLevel p)) g).

(** [Game::handleMovement] *)
Definition handleMovement (dir : Direction) (g : t R) : option (t R) :=
  match m_player g, m_map g with
  | Some p, Some map =>
      let g := set_player (Some (Player.move dir p).1) g in
      p ← m_player g;
      let '(x, y) := Player.pos p in
      _ ← (if negb (Map.isWalkable map x y)
           then tile ← Map.getTile map x y;
                if decide (Tile.type tile = Wall) then Some () else Some ()
           else Some ());
      g ← match getEnemyAt (Player.pos p) g with
           | Some i => handleCombat i g
           | None => Some g
           end;
      map ← m_map g;
      tile ← Map.getTile map x y;
      if decide (Tile.type tile = StairsDown) then nextLevel g else Some g
  | _, _ => Some g
  end.

(** [Game::saveGame]: the text streamed into the file. *)
Definition save_text (p : Player.t) : string :=
  Player.name p +:+ String newline
    (to_string (Player.health p) +:+ " "
     +:+ to_string (Player.maxHealth p) +:+ " "
     +:+ to_string (Player.attackPower p) +:+ " "
     +:+ to_string (Player.defense p) +:+ String newline
    (to_string (Player.level p) +:+ " "
     +:+ to_string (Player.experience p) +:+ " "
     +:+ to_string (Player.gold p) +:+ " "
     +:+ to_string (Player.dungeonLevel p) +:+ String newline "")).

(** [Game::saveGame]: the [bool] returned and the files afterwards, for
    writes that succeed once the file is open, so that [file.good()] is
    [true]. *)
Definition saveGame (filename : string) (fs : FileSystem) (g : t R)
  : option (bool * FileSystem) :=
  if decide (filename ∈ unwritable fs) then Some (false, fs)
  else
    p ← m_player g;
    Some (true, {| files := <[filename := save_text p]> (files fs);
                   unwritable := unwritable fs |}).

(** [Game::loadGame]: the [bool] returned and the session afterwards.
    The eight locals start indeterminate; copying one that no
    extraction stored into is undefined. *)
Definition loadGame (filename : string) (fs : FileSystem) (g : t R)
  : option (bool * t R) :=
  match files fs !! filename with
  | None => Some (false, g)
  | Some content =>
      let file := IStream.open content in
      let '(name, file) := IStream.getline file "" in
      let '(hp, file) := IStream.extract_int file in
      let '(maxHp, file) := IStream.extract_int file in
      let '(atk, file) := IStream.extract_int file in
      let '(def, file) := IStream.extract_int file in
      let '(lvl, file) := IStream.extract_int file in
      let '(exp, file) := IStream.extract_int file in
      let '(gold, file) := IStream.extract_int file in
      let '(dlvl, file) := IStream.extract_int file in
      let p := Player.new (m_nextEntityId g) name (5, 5) in
      let g := set_nextEntityId (m_nextEntityId g + 1)%N g in
      hp ← hp; maxHp ← maxHp; atk ← atk; def ← def;
      lvl ← lvl; exp ← exp; gold ← gold; dlvl ← dlvl;
      let p := Player.make (Player.id p) (Player.name p) (Player.pos p)
                 hp maxHp atk def lvl exp gold dlvl (Player.inventory p) in
      let g := set_player (Some p) g in
      gen ← m_generator g;
      let '(map, gen) := DungeonGenerator.generate MAP_WIDTH MAP_HEIGHT gen in
      let g := set_map (Some map) (set_generator (Some gen) g) in
      g ← spawnEnemies 5 g;
      Some (true, set_state Playing g)
  end.
(** [Game::renderMap]: the text sent to [std::cout]; [getWidth] and
    [getHeight] are the header's getters of [m_width] and [m_height]. *)
Definition renderMap (g : t R) : option string :=
  match m_map g with
  | None => Some ""
  | Some map =>
      for_range 0 (Map.m_height map)
        (fun y out =>
           out ← out;
           out ← for_range 0 (Map.m_width map)
                   (fun x out =>
                      out ← out;
                      tile ← Map.getTile map x y;
                      Some (out +:+ String (Tile.symbol tile) ""))
                   (Some out);
           Some (out +:+ String newline ""))
        (Some "")
  end.

(** [Game::renderEntities]: the text sent to [std::cout]. *)
Definition renderEntities (g : t R) : string :=
  let out :=
    match m_player g with
    | Some p =>
        String escape "[" +:+ to_string (int_add (Player.pos p).2 1) +:+ ";"
        +:+ to_string (int_add (Player.pos p).1 1) +:+ "H@"
    | None => ""
    end in
  foldl (fun out e =>
           if Enemy.isAlive e
           then out +:+ String escape "[" +:+ to_string (int_add (Enemy.pos e).2 1)
                +:+ ";" +:+ to_string (int_add (Enemy.pos e).1 1) +:+ "H"
                +:+ String (Enemy.symbol e) ""
           else out)
        out (m_enemies g).

(** [Game::renderUI]: the text sent to [std::cout]. *)
Definition renderUI (g : t R) : string :=
  match m_player g with
  | None => ""
  | Some p =>
      let y := int_add MAP_HEIGHT 2 in
      String escape "[" +:+ to_string y +:+ ";1H"
      +:+ "Health: " +:+ to_string (Player.health p) +:+ "/"
      +:+ to_string (Player.maxHealth p)
      +:+ "  Level: " +:+ to_string (Player.level p)
      +:+ "  Gold: " +:+ to_string (Player.gold p)
      +:+ "  Dungeon: " +:+ to_string (Player.dungeonLevel p)
  end.

(** [Game::renderMessages]: the text sent to [std::cout]; the state of the
    loop is the text so far and the row [y]. *)
Definition renderMessages (g : t R) : string :=
  (foldl (fun '(out, y) msg =>
            (out +:+ String escape "[" +:+ to_string y +:+ ";1H" +:+ msg,
             int_add y 1))
         ("", int_add MAP_HEIGHT 4) (m_messages g)).1.

(** [Game::render]: the text sent to [std::cout] before the flush. *)
Definition render (g : t R) : option string :=
  let out := String escape "[2J" +:+ String escape "[H" in
  map ← renderMap g;
  Some (out +:+ map +:+ renderEntities g +:+ renderUI g +:+ renderMessages g).
End WithEngine.
End Game.

(** ** A scripted engine and fixed constants, for running the model

    The engine replays a list of raw numbers, each reduced into the range
    asked for; it stands for whatever the real engine would draw. *)

Definition scripted_draw (a b : Z) (r : list Z) : Z * list Z :=
  match r with
  | [] => (a, [])
  | n :: r' => (if a <=? b then a + n mod (b - a + 1) else a, r')
  end.

#[global] Instance scripted_engine : RandomSource (list Z).
Proof.
  refine {| uniform_int := scripted_draw |}.
  intros a b r Hab. destruct r as [|n r]; simpl; [lia|].
  destruct (Z.leb_spec a b); [|lia].
  pose proof (Z.mod_pos_bound n (b - a + 1)). lia.
Defined.

(** The smallest grid the generator's contract covers, 8 by 8; the
    invalid position is off the grid. *)
Definition small_grid : Constants :=
  {| MAP_WIDTH := 8; MAP_HEIGHT := 8; INVALID_POSITION := (-1, -1) |}.

Definition scripted_game (script : list Z) : Game.t (list Z) :=
  (Game.initialize (DungeonGenerator.make 0 script) Game.new).1.

(** Sessions reached by [newGame] on that grid, for chosen draws.  The
    room spans x in [2, 6) and y in [2, 6); the player starts on (3, 3).
    The first two draws place the stairway, the next three an enemy and
    its archetype. *)
Section Fixtures.
#[local] Existing Instance small_grid.

Definition hero : Player.t :=
  Player.set_pos (3, 3) (Player.new 1%N "Hero" (5, 5)).

(** The stairway two cells east of the player, on (5, 3). *)
Definition stairs_ahead : Game.t (list Z) :=
  default Game.new (Game.newGame "Hero" (scripted_game [3; 1])).

(** A goblin two cells east of the player; the stairway on (2, 2). *)
Definition goblin_ahead : Game.t (list Z) :=
  default Game.new (Game.newGame "Hero" (scripted_game [0; 0; 4; 2; 0])).

(** A dragon two cells east of the player; the stairway on (2, 2). *)
Definition dragon_ahead : Game.t (list Z) :=
  default Game.new (Game.newGame "Hero" (scripted_game [0; 0; 4; 2; 6])).

(** The player of [stairs_ahead] after one move north, on (3, 2), the
    top row of the room: the cell north of it, (3, 1), is a wall. *)
Definition below_wall : Game.t (list Z) :=
  default Game.new (Game.handleMovement North stairs_ahead).

(** A player whose name runs over two lines, the second one looking
    like a line of numbers. *)
Definition two_line_name : string :=
  "a" +:+ String newline "1 2 3 4 5 6 7 8".

Definition two_liner : Game.t (list Z) :=
  default Game.new (Game.newGame two_line_name (scripted_game [])).

(** The map of [stairs_ahead] and of [below_wall]. *)
Definition stairs_ahead_map : Map.t :=
  (DungeonGenerator.generate 8 8 (DungeonGenerator.make 0 [3; 1])).1.

(** The map of [dragon_ahead]. *)
Definition dragon_ahead_map : Map.t :=
  (DungeonGenerator.generate 8 8 (DungeonGenerator.make 0 [0; 0; 4; 2; 6])).1.

(** The first enemy of [goblin_ahead]. *)
Definition goblin : Enemy.t := Enemy.new 2%N Goblin (5, 3).

(** A rat two cells east of the player; the stairway on (2, 2). *)
Definition rat_ahead : Game.t (list Z) :=
  default Game.new (Game.newGame "Hero" (scripted_game [0; 0; 4; 2; 4])).

(** The first enemy of [rat_ahead]. *)
Definition rat : Enemy.t := Enemy.new 2%N Rat (5, 3).

Definition no_files : FileSystem := {| files := ∅; unwritable := ∅ |}.
End Fixtures.

(** ** Vocabulary of the statements *)

(** The step table of [Player::move], the way the code has it: two cells
    to the east, one cell in the three other directions. *)
Definition step_of (dir : Direction) : Z * Z :=
  match dir with
  | North => (0, -1)
  | South => (0, 1)
  | East => (2, 0)
  | West => (-1, 0)
  end.

(** The newest [n] entries of a log, in their order. *)
Definition newest {A : Type} (n : nat) (l : list A) : list A :=
  drop (length l - n) l.

(** A run of [addMessage] calls, one per message, oldest first. *)
Definition addMessages {R : Type} (msgs : list string) (g : Game.t R) : Game.t R :=
  foldl (fun g msg => Game.addMessage msg g) g msgs.

(** An enemy as its constructor leaves it, with an id not below [n]. *)
Definition fresh_from (n : EntityId) (e : Enemy.t) : Prop :=
  exists i ty pos, e = Enemy.new i ty pos /\ (n <= i)%N.

Definition health_potion : Item.t :=
  Item.make "Health Potion" Potion "!"%char 20 0 25.

(** The player [nextLevel] leaves behind. *)
Definition descended `{Constants} (p : Player.t) : Player.t :=
  Player.set_pos Game.spawn_offset
    (Player.set_dungeonLevel (int_add (Player.dungeonLevel p) 1) p).

(** The tile [Map::setTile] writes for a type. *)
Definition canonical_tile (ty : TileType) : Tile.t :=
  match ty with
  | Floor => Tile.make Floor "."%char true
  | Wall => Tile.make Wall "#"%char false
  | Door => Tile.make Door "+"%char true
  | StairsUp => Tile.make StairsUp "<"%char true
  | StairsDown => Tile.make StairsDown ">"%char true
  | Trap => Tile.make Trap "^"%char true
  end.

(** The grid has [m_height] rows of [m_width] tiles each. *)
Definition grid_ok (m : Map.t) : Prop :=
  length (Map.m_tiles m) = Z.to_nat (Map.m_height m)
  /\ forall i row, Map.m_tiles m !! i = Some row ->
                   length row = Z.to_nat (Map.m_width m).

(** Two maps with the same dimensions and the same recorded stairway. *)
Definition same_frame (m m' : Map.t) : Prop :=
  Map.m_width m' = Map.m_width m
  /\ Map.m_height m' = Map.m_height m
  /\ Map.m_stairsDown m' = Map.m_stairsDown m.

(** The carved room of a [w] by [h] map. *)
Definition in_room (w h x y : Z) : Prop :=
  w ÷ 4 <= x < w ÷ 4 + w ÷ 2 /\ h ÷ 4 <= y < h ÷ 4 + h ÷ 2.

#[global] Instance in_room_dec w h x y : Decision (in_room w h x y).
Proof. unfold in_room. apply _. Defined.

(** Two cells next to each other, both walkable: one step of a walk. *)
Definition walk_step (m : Map.t) (a b : Position) : Prop :=
  Z.abs (a.1 - b.1) + Z.abs (a.2 - b.2) = 1
  /\ Map.isWalkable m a.1 a.2 = true
  /\ Map.isWalkable m b.1 b.2 = true.

(** [b] can be reached from [a] over walkable cells. *)
Definition connected (m : Map.t) (a b : Position) : Prop :=
  rtc (walk_step m) a b.

(** Whether a character occurs in a text. *)
Fixpoint contains (c : ascii) (s : string) : bool :=
  match s with
  | String c' rest => if decide (c' = c) then true else contains c rest
  | EmptyString => false
  end.

(** Whether every enemy of [es] standing on [pos] has health 0 or less. *)
Definition only_dead_at (pos : Position) (es : list Enemy.t) : bool :=
  forallb (fun e => if decide (Enemy.pos e = pos)
                    then Enemy.health e <=? 0 else true) es.

(** The claim C3 makes of one move in one session: the player ends on
    the old position plus the step of the direction. *)
Definition lands_on_step `{Constants} {R : Type} `{!RandomSource R}
    (dir : Direction) (g : Game.t R) : Prop :=
  forall p, Game.m_player g = Some p ->
    exists g' p',
      Game.handleMovement dir g = Some g'
      /\ Game.m_player g' = Some p'
      /\ Player.pos p'
         = ((Player.pos p).1 + (step_of dir).1,
            (Player.pos p).2 + (step_of dir).2).

(** The claim C9 makes of one session: saving it and loading the file
    gives back the player's name and eight numbers. *)
Definition round_trips `{Constants} {R : Type} `{!RandomSource R}
    (filename : string) (fs : FileSystem) (g g0 : Game.t R) : Prop :=
  forall p, Game.m_player g = Some p ->
    exists fs' g' p',
      Game.saveGame filename fs g = Some (true, fs')
      /\ Game.loadGame filename fs' g0 = Some (true, g')
      /\ Game.m_player g' = Some p'
      /\ Player.name p' = Player.name p
      /\ Player.stats p' = Player.stats p.

(** ** Vocabulary of the further statements *)

(** A run of [addItem] calls, one per item, in order. *)
Definition addItems (items : list Item.t) (p : Player.t) : Player.t :=
  foldl (fun p item => (Player.addItem item p).1) p items.

(** The maps the code can build: the constructor, then any run of
    [setTile], [setStairsDown] and [clear]. *)
Inductive built `{Constants} : Map.t -> Prop :=
| built_new (w h : Z) : built (Map.new w h)
| built_setTile (x y : Z) (ty : TileType) (m : Map.t) :
    built m -> built (Map.setTile x y ty m)
| built_setStairsDown (pos : Position) (m : Map.t) :
    built m -> built (Map.setStairsDown pos m)
| built_clear (m : Map.t) : built m -> built (Map.clear m).

(** Every tile of the grid is the one [setTile] writes for its type. *)
Definition tiles_canonical (m : Map.t) : Prop :=
  forall x y tile, Map.getTile m x y = Some tile ->
                   tile = canonical_tile (Tile.type tile).

#[global] Instance Enemy_eq_dec : EqDecision Enemy.t.
Proof. solve_decision. Defined.

(** What [removeDeadEnemies] does to the enemy list: the first enemy that
    is not alive goes. *)
Definition reap (es : list Enemy.t) : list Enemy.t :=
  match list_find (fun e => Enemy.isAlive e = false) es with
  | Some (i, _) => delete i es
  | None => es
  end.

(** The enemies that are alive, in their order. *)
Definition alive_ones (es : list Enemy.t) : list Enemy.t :=
  filter (fun e => Enemy.isAlive e = true) es.

(** The enemy [getEnemyAt] points at, [None] for [nullptr]. *)
Definition enemy_at {R : Type} (pos : Position) (g : Game.t R) : option Enemy.t :=
  i ← Game.getEnemyAt pos g; Game.m_enemies g !! i.

(** One call of a public operation of [Game] that returns; [saveGame],
    [processInput] and [render] leave the session as it is. *)
Inductive session_step `{Constants} {R : Type} `{!RandomSource R}
  : Game.t R -> Game.t R -> Prop :=
| step_initialize (engine : DungeonGenerator.t R) (g : Game.t R) :
    session_step g (Game.initialize engine g).1
| step_run (g : Game.t R) : session_step g (Game.run g)
| step_shutdown (g : Game.t R) : session_step g (Game.shutdown g)
| step_newGame (name : string) (g g' : Game.t R) :
    Game.newGame name g = Some g' -> session_step g g'
| step_loadGame (filename : string) (fs : FileSystem) (b : bool)
    (g g' : Game.t R) :
    Game.loadGame filename fs g = Some (b, g') -> session_step g g'
| step_update (g : Game.t R) : session_step g (Game.update g)
| step_handleMovement (dir : Direction) (g g' : Game.t R) :
    Game.handleMovement dir g = Some g' -> session_step g g'.

(** The sessions reached from the constructor by such calls. *)
Definition reachable `{Constants} {R : Type} `{!RandomSource R}
    (g : Game.t R) : Prop :=
  rtc session_step Game.new g.

(** What every reachable session satisfies: the log within its capacity;
    a map, if any, built by the code with the fixed dimensions; with a map
    also a player and a generator; entity ids below the counter, those of
    the enemies pairwise distinct and distinct from the player's. *)
Definition session_inv `{Constants} {R : Type} `{!RandomSource R}
    (g : Game.t R) : Prop :=
  (length (Game.m_messages g) <= MAX_MESSAGES)%nat
  /\ (forall m, Game.m_map g = Some m ->
        built m /\ Map.m_width m = MAP_WIDTH /\ Map.m_height m = MAP_HEIGHT)
  /\ (is_Some (Game.m_map g) ->
      is_Some (Game.m_player g) /\ is_Some (Game.m_generator g))
  /\ Forall (fun e => (Enemy.id e < Game.m_nextEntityId g)%N) (Game.m_enemies g)
  /\ NoDup (Enemy.id <$> Game.m_enemies g)
  /\ (forall p, Game.m_player g = Some p ->
        (Player.id p < Game.m_nextEntityId g)%N
        /\ Player.id p ∉ Enemy.id <$> Game.m_enemies g).

(** The text [renderMap] prints for one row of tiles and for a grid: the
    symbols of the row and a line feed, row after row. *)
Definition row_text (row : list Tile.t) : string :=
  String.string_of_list_ascii (Tile.symbol <$> row) +:+ String newline "".

Definition map_text (m : Map.t) : string :=
  foldr (fun row s => row_text row +:+ s) "" (Map.m_tiles m).

(** ** Further fixtures *)

Section FurtherFixtures.
#[local] Existing Instance small_grid.

(** The hero at half health. *)
Definition wounded : Player.t := Player.set_health 50 hero.

(** A three by three map with one floor cell, in the middle. *)
Definition one_cell_room : Map.t := Map.setTile 1 1 Floor (Map.new 3 3).

(** The files after the hero of [stairs_ahead] was saved as [save]. *)
Definition saved_hero : FileSystem :=
  {| files := <["save" := Game.save_text hero]> ∅; unwritable := ∅ |}.


(** A session whose enemies are a goblin, a dragon, a goblin and a
    dragon; the dragons are dead. *)
Definition two_corpses : Game.t (list Z) :=
  Game.set_enemies
    [Enemy.new 10%N Goblin (1, 1); Enemy.new 11%N Dragon (2, 2);
     Enemy.new 12%N Goblin (3, 3); Enemy.new 13%N Dragon (4, 4)]
    Game.new.
End FurtherFixtures.

(** * Properties *)

(** ** Machine integers *)

Lemma wrap_int_id z : in_int z -> wrap_int z = z.
Proof.
  unfold in_int, INT_MIN, INT_MAX, wrap_int. intros Hz.
  rewrite Z.mod_small by lia. lia.
Qed.

Lemma int_add_exact a b : in_int (a + b) -> int_add a b = a + b.
Proof. apply wrap_int_id. Qed.

Lemma int_sub_exact a b : in_int (a - b) -> int_sub a b = a - b.
Proof. apply wrap_int_id. Qed.

Lemma wrap_int_in_int z : in_int (wrap_int z).
Proof.
  unfold in_int, INT_MIN, INT_MAX, wrap_int.
  pose proof (Z.mod_pos_bound (z + 2 ^ 31) (2 ^ 32)). lia.
Qed.

(** ** Entities *)

(** C7: an enemy built with the Dragon archetype starts with health 0
    although its maximum is 200; every other archetype starts with its
    health equal to its maximum. *)
Theorem Enemy_new_health (i : EntityId) (ty : EnemyType) (p : Position) :
  Enemy.health (Enemy.new i Dragon p) = 0
  /\ Enemy.maxHealth (Enemy.new i Dragon p) = 200
  /\ Enemy.health (Enemy.new i ty p)
     = if decide (ty = Dragon) then 0 else Enemy.maxHealth (Enemy.new i ty p).
Proof. repeat split; by destruct ty. Qed.

Lemma Player_move_pos (dir : Direction) (p : Player.t) :
  in_int ((Player.pos p).1 + (step_of dir).1) ->
  in_int ((Player.pos p).2 + (step_of dir).2) ->
  Player.pos (Player.move dir p).1
  = ((Player.pos p).1 + (step_of dir).1, (Player.pos p).2 + (step_of dir).2).
Proof.
  unfold Player.move. destruct (Player.pos p) as [x y] eqn:Hp.
  destruct dir; simpl; intros Hx Hy; f_equal;
    rewrite ?int_add_exact, ?int_sub_exact; unfold in_int in *; lia.
Qed.

Lemma Player_move_keeps (dir : Direction) (p : Player.t) :
  let p' := (Player.move dir p).1 in
  Player.stats p' = Player.stats p /\ Player.name p' = Player.name p
  /\ Player.id p' = Player.id p /\ Player.inventory p' = Player.inventory p.
Proof.
  unfold Player.move. destruct (Player.pos p) as [x y].
  by destruct dir.
Qed.

(** C2: where the code departs from the claim.  From (5, 5) a move to the
    west shifts x by 1, not 2, so that east followed by west ends one cell
    to the east of the start, and west followed by east as well. *)
Theorem Player_move_west_is_one_cell :
  let p := Player.new 1%N "Hero" (5, 5) in
  Player.pos (Player.move West p).1 = (4, 5)
  /\ Player.pos (Player.move West (Player.move East p).1).1 = (6, 5)
  /\ Player.pos (Player.move East (Player.move West p).1).1 = (6, 5)
  /\ Player.pos (Player.move South (Player.move North p).1).1 = (5, 5).
Proof. by vm_compute. Qed.

(** ** The message log *)

Lemma newest_short {A : Type} (n : nat) (l : list A) :
  (length l <= n)%nat -> newest n l = l.
Proof.
  intros Hl. unfold newest. by replace (length l - n)%nat with O by lia.
Qed.

Lemma length_newest {A : Type} (n : nat) (l : list A) :
  length (newest n l) = Nat.min n (length l).
Proof. unfold newest. rewrite length_drop. lia. Qed.

Lemma newest_snoc {A : Type} (n : nat) (l : list A) (x : A) :
  newest (S n) (newest (S n) l ++ [x]) = newest (S n) (l ++ [x]).
Proof.
  destruct (decide (length l <= S n)%nat) as [Hl|Hl].
  - by rewrite (newest_short (S n) l).
  - unfold newest at 1 3. rewrite !length_app, length_newest.
    replace (S n `min` length l + length [x] - S n)%nat with 1%nat
      by (simpl length; lia).
    unfold newest. change (length [x]) with 1%nat.
    rewrite !drop_app_le by (rewrite ?length_drop; lia).
    rewrite drop_drop. do 2 f_equal. lia.
Qed.

Section MessageLog.
Context `{Constants} {R : Type} `{!RandomSource R}.

Lemma addMessage_messages (msg : string) (g : Game.t R) :
  (length (Game.m_messages g) <= MAX_MESSAGES)%nat ->
  Game.m_messages (Game.addMessage msg g)
  = newest MAX_MESSAGES (Game.m_messages g ++ [msg]).
Proof.
  intros Hl. unfold Game.addMessage. simpl.
  destruct (Nat.ltb_spec MAX_MESSAGES (length (Game.m_messages g ++ [msg])))
    as [Hlt|Hge].
  - unfold newest. f_equal. rewrite length_app in *. simpl in *. lia.
  - by rewrite newest_short.
Qed.

Lemma addMessage_last (msg : string) (g : Game.t R) :
  last (Game.m_messages (Game.addMessage msg g)) = Some msg.
Proof.
  unfold Game.addMessage. simpl.
  destruct (Nat.ltb_spec MAX_MESSAGES (length (Game.m_messages g ++ [msg])))
    as [Hlt|Hge]; [|apply last_snoc].
  destruct (Game.m_messages g) as [|m l]; simpl in *; [unfold MAX_MESSAGES in *; lia|].
  apply last_snoc.
Qed.

(** C8: starting from a log within its capacity, after any run of
    [addMessage] calls the log holds the newest five of all the messages,
    in the order they were added, hence never more than five: the ones
    dropped are the oldest. *)
Theorem addMessage_log_bounded_fifo (g : Game.t R) (msgs : list string) :
  (length (Game.m_messages g) <= MAX_MESSAGES)%nat ->
  Game.m_messages (addMessages msgs g)
  = newest 5 (Game.m_messages g ++ msgs)
  /\ (length (Game.m_messages (addMessages msgs g)) <= 5)%nat.
Proof.
  intros Hg. induction msgs as [|msg msgs IH] using rev_ind.
  - simpl. rewrite app_nil_r. split; [by rewrite newest_short|done].
  - destruct IH as [IH Hlen]. unfold addMessages in *. rewrite foldl_snoc.
    assert (Game.m_messages
              (Game.addMessage msg
                 (foldl (fun g msg => Game.addMessage msg g) g msgs))
            = newest 5 (Game.m_messages g ++ msgs ++ [msg])) as Heq.
    { rewrite addMessage_messages by done. rewrite IH.
      unfold MAX_MESSAGES. rewrite newest_snoc. by rewrite <- app_assoc. }
    split; [done|]. rewrite Heq, length_newest. lia.
Qed.
End MessageLog.

(** ** Combat *)

Section Combat.
Context `{Constants} {R : Type} `{!RandomSource R}.

(** What one exchange leaves alone: the map, the engine, the id counter,
    the items on the floor, where the player stands and how deep. *)
Lemma handleCombat_frame (i : nat) (g g' : Game.t R) :
  Game.handleCombat i g = Some g' ->
  Game.m_map g' = Game.m_map g
  /\ Game.m_generator g' = Game.m_generator g
  /\ Game.m_nextEntityId g' = Game.m_nextEntityId g
  /\ Game.m_floorItems g' = Game.m_floorItems g
  /\ length (Game.m_enemies g') = length (Game.m_enemies g)
  /\ exists p p', Game.m_player g = Some p /\ Game.m_player g' = Some p'
       /\ Player.pos p' = Player.pos p
       /\ Player.dungeonLevel p' = Player.dungeonLevel p
       /\ Player.name p' = Player.name p.
Proof.
  unfold Game.handleCombat. intros Hc.
  destruct (Game.m_player g) as [p|] eqn:Hp; [|done].
  destruct (Game.m_enemies g !! i) as [e|] eqn:He; [|done].
  simpl in Hc.
  repeat match type of Hc with
         | context [if ?b then _ else _] => destruct b
         end;
    injection Hc as <-; simpl; rewrite ?length_insert;
    repeat split; eauto 10.
Qed.

Lemma handleCombat_defined (i : nat) (g : Game.t R) (p : Player.t) (e : Enemy.t) :
  Game.m_player g = Some p -> Game.m_enemies g !! i = Some e ->
  is_Some (Game.handleCombat i g).
Proof.
  intros Hp He. unfold Game.handleCombat. rewrite Hp, He. simpl.
  repeat match goal with
         | |- context [if ?b then _ else _] => destruct b
         end; eauto.
Qed.

(** One exchange of [handleCombat] between the player [p] and the enemy
    [e] at index [i].  The enemy loses exactly the player's attack power.
    If it is still alive, the player loses exactly
    [max 1 (enemy attack - player defense)] and gains nothing; if it is
    dead, the player loses nothing and gains exactly the enemy's
    experience and gold rewards.  Each amount is exact as long as it is
    representable. *)
Lemma handleCombat_exchange
    (g : Game.t R) (i : nat) (p : Player.t) (e : Enemy.t) :
  Game.m_player g = Some p ->
  Game.m_enemies g !! i = Some e ->
  in_int (Enemy.health e - Player.attackPower p) ->
  exists g' p' e',
    Game.handleCombat i g = Some g'
    /\ Game.m_player g' = Some p'
    /\ Game.m_enemies g' !! i = Some e'
    /\ Enemy.health e' = Enemy.health e - Player.attackPower p
    /\ (0 < Enemy.health e' ->
        let dmg := Z.max 1 (Enemy.attackPower e - Player.defense p) in
        in_int (Enemy.attackPower e - Player.defense p) ->
        in_int (Player.health p - dmg) ->
        Player.health p' = Player.health p - dmg
        /\ Player.experience p' = Player.experience p
        /\ Player.gold p' = Player.gold p)
    /\ (Enemy.health e' <= 0 ->
        in_int (Player.experience p + Enemy.expReward e) ->
        in_int (Player.gold p + Enemy.goldReward e) ->
        Player.health p' = Player.health p
        /\ Player.experience p' = Player.experience p + Enemy.expReward e
        /\ Player.gold p' = Player.gold p + Enemy.goldReward e).
Proof.
  intros Hp He Hhit. unfold Game.handleCombat. rewrite Hp, He. simpl.
  pose proof (lookup_lt_Some _ _ _ He) as Hi.
  unfold Enemy.isAlive, Enemy.takeDamage. simpl.
  rewrite (int_sub_exact _ _ Hhit).
  destruct (Z.ltb_spec 0 (Enemy.health e - Player.attackPower p)) as [Hliv|Hdead].
  - destruct (negb (Player.isAlive _)); eexists _, _, _;
      (split; [reflexivity|]); simpl;
      (split; [done|]); (split; [by rewrite list_lookup_insert_eq|]);
      (split; [done|]); (split; [|simpl; lia]);
      intros _ Hd Hh; simpl;
      rewrite (int_sub_exact _ _ Hd); by rewrite (int_sub_exact _ _ Hh).
  - eexists _, _, _. split; [done|]. simpl.
    split; [done|]. split; [by rewrite list_lookup_insert_eq|].
    split; [done|]. split; [simpl; lia|].
    intros _ Hx Hg. simpl.
    by rewrite (int_add_exact _ _ Hx), (int_add_exact _ _ Hg).
Qed.
End Combat.

(** ** Spawning *)

Section Spawning.
Context `{Constants} {R : Type} `{!RandomSource R}.

Lemma spawnEnemies_loop_spec (n : nat) (g : Game.t R) :
  is_Some (Game.m_generator g) ->
  exists g' new,
    Game.spawnEnemies_loop n g = Some g'
    /\ Game.m_enemies g' = Game.m_enemies g ++ new
    /\ length new = n
    /\ Forall (fresh_from (Game.m_nextEntityId g)) new
    /\ is_Some (Game.m_generator g')
    /\ (Game.m_nextEntityId g <= Game.m_nextEntityId g')%N
    /\ Game.m_player g' = Game.m_player g
    /\ Game.m_map g' = Game.m_map g
    /\ Game.m_state g' = Game.m_state g
    /\ Game.m_floorItems g' = Game.m_floorItems g
    /\ Game.m_messages g' = Game.m_messages g.
Proof.
  revert g. induction n as [|n IH]; intros g [gen Hgen].
  - exists g, []. simpl. rewrite app_nil_r. repeat split; eauto; lia.
  - simpl. rewrite Hgen. simpl.
    destruct (uniform_int 1 _ _) as [x rng1].
    destruct (uniform_int 1 _ rng1) as [y rng2].
    pose proof (uniform_int_range 0 6 rng2 ltac:(lia)) as Hk.
    destruct (uniform_int 0 6 rng2) as [k rng3]. simpl in Hk.
    destruct (Z.leb_spec 0 k) as [_|]; [|lia].
    destruct (lookup_lt_is_Some_2
                [Goblin; Orc; Skeleton; Zombie; Rat; Spider; Dragon]
                (Z.to_nat k)) as [ty Hty]; [simpl; lia|].
    rewrite Hty. simpl.
    edestruct IH as (g' & new & Hrun & Hen & Hlen & Hfresh & Hg & Hid & Hrest);
      [|rewrite Hrun]; [by eexists|].
    simpl in *. eexists g', (_ :: new). split; [done|].
    split; [by rewrite Hen, <- app_assoc|]. split; [by rewrite <- Hlen|].
    split.
    { constructor; [by eexists _, _, _|].
      eapply Forall_impl; [done|].
      intros e (j & ty' & q & -> & Hj). eexists _, _, _. split; [done|]. lia. }
    split; [done|]. split; [lia|]. done.
Qed.

Lemma spawnItems_loop_spec (n : nat) (g : Game.t R) :
  is_Some (Game.m_generator g) ->
  exists g',
    Game.spawnItems_loop n g = Some g'
    /\ Game.m_floorItems g' = Game.m_floorItems g ++ replicate n health_potion
    /\ is_Some (Game.m_generator g')
    /\ Game.m_nextEntityId g' = Game.m_nextEntityId g
    /\ Game.m_player g' = Game.m_player g
    /\ Game.m_map g' = Game.m_map g
    /\ Game.m_state g' = Game.m_state g
    /\ Game.m_enemies g' = Game.m_enemies g
    /\ Game.m_messages g' = Game.m_messages g.
Proof.
  revert g. induction n as [|n IH]; intros g [gen Hgen].
  - exists g. simpl. rewrite app_nil_r. repeat split; eauto.
  - simpl. rewrite Hgen. simpl.
    destruct (uniform_int 1 _ _) as [x rng1].
    destruct (uniform_int 1 _ rng1) as [y rng2].
    edestruct IH as (g' & Hrun & Hit & Hrest); [|rewrite Hrun]; [by eexists|].
    simpl in *. exists g'. split; [done|].
    split; [by rewrite Hit, <- app_assoc|]. done.
Qed.
End Spawning.

(** ** Descent and movement *)

Lemma only_dead_at_spec (pos : Position) (es : list Enemy.t) :
  only_dead_at pos es = true ->
  forall e, e ∈ es -> Enemy.pos e = pos -> Enemy.health e <= 0.
Proof.
  unfold only_dead_at. rewrite forallb_forall.
  intros Hall e He Hpos. apply list_elem_of_In in He.
  specialize (Hall e He). rewrite decide_True in Hall by done.
  by apply Z.leb_le.
Qed.

Section Movement.
Context `{Constants} {R : Type} `{!RandomSource R}.

#[local] Arguments Game.spawnEnemies_loop : simpl never.
#[local] Arguments Game.spawnItems_loop : simpl never.

Lemma nextLevel_spec (g : Game.t R) (p : Player.t) (gen : DungeonGenerator.t R) :
  Game.m_player g = Some p ->
  Game.m_generator g = Some gen ->
  exists g',
    Game.nextLevel g = Some g'
    /\ Game.m_player g' = Some (descended p)
    /\ Game.m_map g'
       = Some (DungeonGenerator.generate MAP_WIDTH MAP_HEIGHT gen).1
    /\ length (Game.m_enemies g')
       = Z.to_nat (int_add 5 (int_add (Player.dungeonLevel p) 1))
    /\ Forall (fresh_from (Game.m_nextEntityId g)) (Game.m_enemies g')
    /\ Game.m_floorItems g'
       = Game.m_floorItems g ++ replicate 3 health_potion
    /\ last (Game.m_messages g')
       = Some ("You descend to dungeon level "
               +:+ to_string (int_add (Player.dungeonLevel p) 1))
    /\ Game.m_state g' = Game.m_state g.
Proof.
  intros Hp Hgen. unfold Game.nextLevel. rewrite Hp. simpl. rewrite Hgen. simpl.
  destruct (DungeonGenerator.generate MAP_WIDTH MAP_HEIGHT gen) as [map gen'].
  unfold Game.spawnEnemies, Game.spawnItems.
  edestruct (spawnEnemies_loop_spec
               (Z.to_nat (int_add 5 (int_add (Player.dungeonLevel p) 1))))
    as (g1 & new & Hrun & Hen & Hlen & Hfresh & Hg1 & _ & Hp1 & Hm1 & Hs1 & Hf1 & _);
    [|simpl; rewrite Hrun]; [by eexists|].
  simpl in Hen, Hfresh, Hp1, Hm1, Hs1, Hf1. change (Z.to_nat 3) with 3%nat.
  edestruct (spawnItems_loop_spec 3 g1)
    as (g2 & Hrun2 & Hit2 & _ & _ & Hp2 & Hm2 & Hs2 & He2 & _);
    [done|simpl; rewrite Hrun2].
  simpl. eexists. split; [done|]. simpl.
  rewrite Hp2, Hp1, Hm2, Hm1, He2, Hen, Hit2, Hf1, Hs2, Hs1.
  repeat split; try done. apply addMessage_last.
Qed.

(** [handleMovement] once the player and the map are there and the cell
    moved onto lies on the grid: an exchange with the first live enemy on
    that cell if there is one, then the descent if the cell is a
    stairway down. *)
Lemma handleMovement_resolve
    (dir : Direction) (g : Game.t R) (p : Player.t) (map : Map.t) (tile : Tile.t) :
  Game.m_player g = Some p ->
  Game.m_map g = Some map ->
  let p1 := (Player.move dir p).1 in
  let g1 := Game.set_player (Some p1) g in
  Map.getTile map (Player.pos p1).1 (Player.pos p1).2 = Some tile ->
  Game.handleMovement dir g
  = g2 ← match Game.getEnemyAt (Player.pos p1) g1 with
          | Some i => Game.handleCombat i g1
          | None => Some g1
          end;
    if decide (Tile.type tile = StairsDown) then Game.nextLevel g2 else Some g2.
Proof.
  intros Hp Hm p1 g1 Ht. unfold Game.handleMovement. rewrite Hp, Hm. simpl.
  fold p1 g1. destruct (Player.pos p1) as [x y] eqn:Hpos. simpl in Ht.
  rewrite Ht. simpl.
  replace (if negb (Map.isWalkable map x y)
           then if decide (Tile.type tile = Wall) then Some () else Some ()
           else Some ()) with (Some ())
    by (by destruct (negb (Map.isWalkable map x y)),
                    (decide (Tile.type tile = Wall))).
  simpl.
  destruct (Game.getEnemyAt (x, y) g1) as [i|]; simpl.
  - destruct (Game.handleCombat i g1) as [g2|] eqn:Hc; [|done]. simpl.
    destruct (handleCombat_frame _ _ _ Hc) as (-> & _). simpl.
    rewrite Hm. simpl. by rewrite Ht.
  - rewrite Hm. simpl. by rewrite Ht.
Qed.

Lemma getEnemyAt_Some (pos : Position) (g : Game.t R) (i : nat) :
  Game.getEnemyAt pos g = Some i ->
  exists e, Game.m_enemies g !! i = Some e
            /\ Enemy.pos e = pos /\ 0 < Enemy.health e.
Proof.
  unfold Game.getEnemyAt. intros Hf.
  destruct (list_find _ _) as [[j e]|] eqn:Hfind; [|done].
  injection Hf as ->. apply list_find_Some in Hfind as (He & [Hpos Hal] & _).
  exists e. unfold Enemy.isAlive in Hal. repeat split; [done..|lia].
Qed.

Lemma getEnemyAt_None (pos : Position) (g : Game.t R) :
  (forall e, e ∈ Game.m_enemies g -> Enemy.pos e = pos -> Enemy.health e <= 0) ->
  Game.getEnemyAt pos g = None.
Proof.
  intros Hdead. unfold Game.getEnemyAt.
  destruct (list_find _ _) as [[j e]|] eqn:Hfind; [|done].
  apply list_find_Some in Hfind as (He & [Hpos Hal] & _).
  apply list_elem_of_lookup_2 in He. specialize (Hdead e He Hpos).
  unfold Enemy.isAlive in Hal. lia.
Qed.

(** The exchange on arrival, whether or not there is one, leaves the
    player's place and depth, the map and the engine as they were. *)
Lemma arrival_frame (pos : Position) (g1 : Game.t R) (p1 : Player.t) :
  Game.m_player g1 = Some p1 ->
  exists g2 p2,
    match Game.getEnemyAt pos g1 with
    | Some i => Game.handleCombat i g1
    | None => Some g1
    end = Some g2
    /\ Game.m_player g2 = Some p2
    /\ Player.pos p2 = Player.pos p1
    /\ Player.dungeonLevel p2 = Player.dungeonLevel p1
    /\ Game.m_generator g2 = Game.m_generator g1
    /\ Game.m_nextEntityId g2 = Game.m_nextEntityId g1
    /\ Game.m_floorItems g2 = Game.m_floorItems g1.
Proof.
  intros Hp1. destruct (Game.getEnemyAt pos g1) as [i|] eqn:Hat.
  - apply getEnemyAt_Some in Hat as (e & He & _).
    destruct (handleCombat_defined i g1 p1 e Hp1 He) as [g2 Hc].
    destruct (handleCombat_frame _ _ _ Hc)
      as (_ & Hgen & Hid & Hfl & _ & q & q' & Hq & Hq' & Hpos & Hdl & _).
    exists g2, q'. rewrite Hp1 in Hq. injection Hq as <-. done.
  - by exists g1, p1.
Qed.

(** C3, amended: without a player or without a map [handleMovement]
    changes nothing.  With both, the player is moved by the step of the
    direction (north y-1, south y+1, east x+2, west x-1) whatever tile
    lies there, a wall included, as long as that cell is on the grid; the
    player ends on that cell unless it is a stairway down, in which case
    the descent puts the player on the spawn cell of the new level. *)
Theorem handleMovement_moves_regardless (dir : Direction) (g : Game.t R) :
  (Game.m_player g = None \/ Game.m_map g = None ->
   Game.handleMovement dir g = Some g)
  /\ forall (p : Player.t) (map : Map.t) (tile : Tile.t),
       Game.m_player g = Some p ->
       Game.m_map g = Some map ->
       let dest := ((Player.pos p).1 + (step_of dir).1,
                    (Player.pos p).2 + (step_of dir).2) in
       in_int dest.1 -> in_int dest.2 ->
       Map.getTile map dest.1 dest.2 = Some tile ->
       (Tile.type tile = StairsDown -> is_Some (Game.m_generator g)) ->
       exists g' p',
         Game.handleMovement dir g = Some g'
         /\ Game.m_player g' = Some p'
         /\ Player.pos p'
            = if decide (Tile.type tile = StairsDown)
              then Game.spawn_offset else dest.
Proof.
  split.
  - unfold Game.handleMovement. intros [-> | Hm]; [done|].
    rewrite Hm. by destruct (Game.m_player g).
  - intros p map tile Hp Hm dest Hx Hy Ht Hgen.
    pose proof (Player_move_pos dir p Hx Hy) as Hpos. fold dest in Hpos.
    rewrite (handleMovement_resolve dir g p map tile Hp Hm)
      by (by rewrite Hpos).
    set (p1 := (Player.move dir p).1) in *.
    set (g1 := Game.set_player (Some p1) g).
    destruct (arrival_frame (Player.pos p1) g1 p1 eq_refl)
      as (g2 & p2 & -> & Hp2 & Hpos2 & _ & Hgen2 & _).
    simpl. destruct (decide (Tile.type tile = StairsDown)) as [Hst|Hst].
    + destruct (Hgen Hst) as [gen Hg].
      destruct (nextLevel_spec g2 p2 gen Hp2) as (g' & -> & Hp' & _);
        [by rewrite Hgen2|].
      by exists g', (descended p2).
    + exists g2, p2. by rewrite Hpos2, Hpos.
Qed.


(** C10: [getEnemyAt] only ever yields an enemy with health above 0.
    Hence a move onto a cell where every enemy is dead resolves without
    an exchange: the outcome is the move alone, followed by the descent
    if the cell is a stairway down; the player's health, experience and
    gold are what they were, and short of a descent the enemies and the
    messages are too. *)
Theorem handleMovement_ignores_dead
    (dir : Direction) (g : Game.t R) (p : Player.t) (map : Map.t) :
  (forall pos i, Game.getEnemyAt pos g = Some i ->
     exists e, Game.m_enemies g !! i = Some e
               /\ Enemy.pos e = pos /\ 0 < Enemy.health e)
  /\ (Game.m_player g = Some p ->
      Game.m_map g = Some map ->
      let p1 := (Player.move dir p).1 in
      let g1 := Game.set_player (Some p1) g in
      (forall e, e ∈ Game.m_enemies g ->
                 Enemy.pos e = Player.pos p1 -> Enemy.health e <= 0) ->
      forall tile,
        Map.getTile map (Player.pos p1).1 (Player.pos p1).2 = Some tile ->
        Game.handleMovement dir g
        = (if decide (Tile.type tile = StairsDown)
           then Game.nextLevel g1 else Some g1)
        /\ forall g', Game.handleMovement dir g = Some g' ->
             (exists p', Game.m_player g' = Some p'
                         /\ Player.health p' = Player.health p
                         /\ Player.experience p' = Player.experience p
                         /\ Player.gold p' = Player.gold p)
             /\ (Tile.type tile <> StairsDown ->
                 Game.m_enemies g' = Game.m_enemies g
                 /\ Game.m_messages g' = Game.m_messages g
                 /\ Game.m_state g' = Game.m_state g)).
Proof.
  split; [intros pos i; apply getEnemyAt_Some|].
  intros Hp Hm p1 g1 Hdead tile Ht.
  assert (Game.handleMovement dir g
          = (if decide (Tile.type tile = StairsDown)
             then Game.nextLevel g1 else Some g1)) as Hres.
  { rewrite (handleMovement_resolve dir g p map tile Hp Hm Ht).
    fold p1 g1. by rewrite (getEnemyAt_None (Player.pos p1) g1 Hdead). }
  split; [done|]. intros g' Hg'. rewrite Hres in Hg'.
  destruct (Player_move_keeps dir p) as [Hs _]. fold p1 in Hs.
  injection Hs as Hh _ _ _ _ Hx Hgo _.
  destruct (decide (Tile.type tile = StairsDown)) as [Hst|Hst].
  - split; [|done]. unfold Game.nextLevel in Hg'. simpl in Hg'.
    destruct (Game.m_generator g) as [gen|] eqn:Hgen; [|done].
    destruct (nextLevel_spec g1 p1 gen eq_refl Hgen) as (g'' & Hn & Hp'' & _).
    unfold Game.nextLevel in Hn. simpl in Hn. rewrite Hgen in Hn.
    rewrite Hn in Hg'. injection Hg' as <-.
    exists (descended p1). by rewrite <- Hh, <- Hx, <- Hgo.
  - injection Hg' as <-. split; [|done]. by exists p1.
Qed.
(** The converse of [getEnemyAt_Some]: the first enemy of the list that
    stands on [pos] alive is the one [getEnemyAt] returns. *)
Lemma getEnemyAt_first (pos : Position) (g : Game.t R) (i : nat) (e : Enemy.t) :
  Game.m_enemies g !! i = Some e ->
  Enemy.pos e = pos -> 0 < Enemy.health e ->
  (forall j e0, (j < i)%nat -> Game.m_enemies g !! j = Some e0 ->
                Enemy.pos e0 = pos -> Enemy.health e0 <= 0) ->
  Game.getEnemyAt pos g = Some i.
Proof.
  intros He Hpos Hal Hfirst. unfold Game.getEnemyAt.
  assert (list_find (fun e => Enemy.pos e = pos /\ Enemy.isAlive e = true)
            (Game.m_enemies g) = Some (i, e)) as ->; [|done].
  apply list_find_Some. split; [done|]. split.
  - split; [done|]. unfold Enemy.isAlive. by apply Z.ltb_lt.
  - intros j e0 He0 Hj [Hp0 Hal0]. specialize (Hfirst j e0 Hj He0 Hp0).
    unfold Enemy.isAlive in Hal0. apply Z.ltb_lt in Hal0. lia.
Qed.

(** C1: a move of the player [p] onto a cell of the grid where an enemy
    stands alive.  The enemy fought is [e], the first one of the enemy
    list that stands there alive.  [handleMovement] resolves the exchange
    with it, attacker first, and ends in the state [g2] after that
    exchange, or, if the cell is a stairway down, in the descent from
    [g2], which carries the player of [g2] over.  In [g2] the enemy has
    lost exactly the player's attack power.  If it is still alive, the
    player has lost exactly [max 1 (enemy attack - player defense)] and
    gained nothing; if it is dead, the player has lost nothing and gained
    exactly the enemy's experience and gold rewards.  Each amount is
    exact as long as it is representable. *)
Theorem handleMovement_combat_attacker_first
    (dir : Direction) (g : Game.t R) (p : Player.t) (map : Map.t)
    (tile : Tile.t) (i : nat) (e : Enemy.t) :
  Game.m_player g = Some p ->
  Game.m_map g = Some map ->
  let dest := Player.pos (Player.move dir p).1 in
  Map.getTile map dest.1 dest.2 = Some tile ->
  Game.m_enemies g !! i = Some e ->
  Enemy.pos e = dest ->
  0 < Enemy.health e ->
  (forall j e0, (j < i)%nat -> Game.m_enemies g !! j = Some e0 ->
                Enemy.pos e0 = dest -> Enemy.health e0 <= 0) ->
  in_int (Enemy.health e - Player.attackPower p) ->
  exists g2 p2 e',
    (Tile.type tile <> StairsDown -> Game.handleMovement dir g = Some g2)
    /\ (Tile.type tile = StairsDown ->
        Game.handleMovement dir g = Game.nextLevel g2
        /\ forall g', Game.nextLevel g2 = Some g' ->
                      Game.m_player g' = Some (descended p2))
    /\ Game.m_player g2 = Some p2
    /\ Player.pos p2 = dest
    /\ Game.m_enemies g2 !! i = Some e'
    /\ length (Game.m_enemies g2) = length (Game.m_enemies g)
    /\ Enemy.health e' = Enemy.health e - Player.attackPower p
    /\ (0 < Enemy.health e' ->
        let dmg := Z.max 1 (Enemy.attackPower e - Player.defense p) in
        in_int (Enemy.attackPower e - Player.defense p) ->
        in_int (Player.health p - dmg) ->
        Player.health p2 = Player.health p - dmg
        /\ Player.experience p2 = Player.experience p
        /\ Player.gold p2 = Player.gold p)
    /\ (Enemy.health e' <= 0 ->
        in_int (Player.experience p + Enemy.expReward e) ->
        in_int (Player.gold p + Enemy.goldReward e) ->
        Player.health p2 = Player.health p
        /\ Player.experience p2 = Player.experience p + Enemy.expReward e
        /\ Player.gold p2 = Player.gold p + Enemy.goldReward e).
Proof.
  intros Hp Hm dest Ht He Hpos Hal Hfirst Hhit.
  pose proof (handleMovement_resolve dir g p map tile Hp Hm Ht) as Hres.
  cbv zeta in Hres. fold dest in Hres.
  set (p1 := (Player.move dir p).1) in *.
  set (g1 := Game.set_player (Some p1) g) in *.
  assert (Player.attackPower p1 = Player.attackPower p
          /\ Player.defense p1 = Player.defense p
          /\ Player.health p1 = Player.health p
          /\ Player.experience p1 = Player.experience p
          /\ Player.gold p1 = Player.gold p)
    as (Eatk & Edef & Ehp & Eexp & Egold).
  { unfold p1, Player.move. destruct (Player.pos p) as [x y]. by destruct dir. }
  rewrite (getEnemyAt_first dest g1 i e He Hpos Hal Hfirst) in Hres.
  destruct (handleCombat_exchange g1 i p1 e eq_refl He
              ltac:(by rewrite Eatk))
    as (g2 & p2 & e' & Hrun & Hp2 & He2 & Hh & Halive & Hdead).
  destruct (handleCombat_frame i g1 g2 Hrun)
    as (_ & _ & _ & _ & Hlen & q & q' & Hq & Hq' & Hqpos & _).
  rewrite Hrun in Hres. simpl in Hres.
  exists g2, p2, e'. split.
  { intros Hns. by rewrite Hres, decide_False. }
  split.
  { intros Hs. rewrite Hres, decide_True by done. split; [done|].
    intros g' Hnext.
    destruct (Game.m_generator g2) as [gen|] eqn:Hgen.
    - destruct (nextLevel_spec g2 p2 gen Hp2 Hgen) as (g'' & Hrun2 & Hp'' & _).
      rewrite Hnext in Hrun2. by injection Hrun2 as <-.
    - unfold Game.nextLevel in Hnext. rewrite Hp2 in Hnext.
      simpl in Hnext. by rewrite Hgen in Hnext. }
  split; [done|]. split.
  { rewrite Hp2 in Hq'. injection Hq' as <-. rewrite Hqpos.
    simpl in Hq. by injection Hq as <-. }
  split; [done|]. split; [exact Hlen|].
  rewrite Eatk in Hh. split; [done|]. split.
  - intros Hliv. cbv zeta. intros Hd Hdmg.
    rewrite <- Edef, <- Ehp, <- Eexp, <- Egold in *. by apply Halive.
  - intros Hdd Hx Hgo.
    rewrite <- Ehp, <- Eexp, <- Egold in *. by apply Hdead.
Qed.
End Movement.

(** ** Starting a session *)

Section Session.
Context `{Constants} {R : Type} `{!RandomSource R}.

#[local] Arguments Game.spawnEnemies_loop : simpl never.
#[local] Arguments Game.spawnItems_loop : simpl never.

(** What [newGame] establishes whatever the engine draws: the player on
    the spawn cell at depth 1 with the constructor's stats, the state
    [Playing], a log holding the welcome alone, and five newly built
    enemies appended to the enemy list. *)
Lemma newGame_spec (playerName : string) (g : Game.t R) (gen : DungeonGenerator.t R) :
  Game.m_generator g = Some gen ->
  exists g' new,
    Game.newGame playerName g = Some g'
    /\ Game.m_player g'
       = Some (Player.set_pos Game.spawn_offset
                 (Player.new (Game.m_nextEntityId g) playerName (5, 5)))
    /\ Game.m_map g'
       = Some (DungeonGenerator.generate MAP_WIDTH MAP_HEIGHT gen).1
    /\ Game.m_state g' = Playing
    /\ Game.m_messages g'
       = ["Welcome to the dungeon, " +:+ playerName +:+ "!"]
    /\ Game.m_enemies g' = Game.m_enemies g ++ new
    /\ length new = 5%nat
    /\ Forall (fresh_from (Game.m_nextEntityId g)) new.
Proof.
  intros Hgen. unfold Game.newGame. simpl. rewrite Hgen. simpl.
  destruct (DungeonGenerator.generate MAP_WIDTH MAP_HEIGHT gen) as [map gen'].
  unfold Game.spawnEnemies, Game.spawnItems.
  change (Z.to_nat 5) with 5%nat. change (Z.to_nat 3) with 3%nat.
  edestruct (spawnEnemies_loop_spec 5)
    as (g1 & new & Hrun & Hen & Hlen & Hfresh & Hg1 & _ & Hp1 & Hm1 & _);
    [|simpl; rewrite Hrun]; [by eexists|].
  simpl in Hen, Hfresh, Hp1, Hm1.
  edestruct (spawnItems_loop_spec 3 g1)
    as (g2 & Hrun2 & _ & _ & _ & Hp2 & Hm2 & _ & He2 & _);
    [done|simpl; rewrite Hrun2].
  simpl. eexists _, new. split; [done|]. simpl.
  rewrite Hp2, Hp1, Hm2, Hm1, He2, Hen. repeat split; try done.
  eapply Forall_impl; [done|].
  intros e (j & ty & q & -> & Hj). eexists _, _, _. split; [done|]. lia.
Qed.
End Session.

(** ** The grid *)

Section Grid.
Context `{Constants}.

Lemma grid_ok_new (w h : Z) : grid_ok (Map.new w h).
Proof.
  split; simpl; [by rewrite length_replicate|].
  intros i row [-> _]%lookup_replicate. by rewrite length_replicate.
Qed.

Lemma getTile_new (w h x y : Z) :
  Map.getTile (Map.new w h) x y
  = if Map.isValidPosition (Map.new w h) x y
    then Some (canonical_tile Wall) else None.
Proof.
  unfold Map.getTile, Map.isValidPosition. simpl.
  destruct (Z.leb_spec 0 x) as [Hx0|Hx0]; destruct (Z.leb_spec 0 y) as [Hy0|Hy0];
    destruct (Z.ltb_spec x w) as [Hx1|Hx1];
    destruct (Z.ltb_spec y h) as [Hy1|Hy1]; simpl; try done.
  - rewrite lookup_replicate_2 by lia. simpl.
    by rewrite lookup_replicate_2 by lia.
  - by rewrite (proj1 (lookup_replicate_None _ _ _)) by lia.
  - rewrite lookup_replicate_2 by lia. simpl.
    by rewrite (proj1 (lookup_replicate_None _ _ _)) by lia.
  - by rewrite (proj1 (lookup_replicate_None _ _ _)) by lia.
Qed.

Lemma setTile_dims (x y : Z) (ty : TileType) (m : Map.t) :
  Map.m_width (Map.setTile x y ty m) = Map.m_width m
  /\ Map.m_height (Map.setTile x y ty m) = Map.m_height m
  /\ Map.m_stairsDown (Map.setTile x y ty m) = Map.m_stairsDown m.
Proof. unfold Map.setTile. by destruct (negb _). Qed.

Lemma setTile_valid (x y : Z) (ty : TileType) (m : Map.t) (x' y' : Z) :
  Map.isValidPosition (Map.setTile x y ty m) x' y'
  = Map.isValidPosition m x' y'.
Proof.
  unfold Map.isValidPosition.
  destruct (setTile_dims x y ty m) as (-> & -> & _). done.
Qed.

Lemma grid_ok_setTile (x y : Z) (ty : TileType) (m : Map.t) :
  grid_ok m -> grid_ok (Map.setTile x y ty m).
Proof.
  intros [Hh Hw]. unfold Map.setTile.
  destruct (negb _); [done|]. split; simpl.
  - by rewrite length_alter.
  - intros i row. rewrite list_lookup_alter.
    case_decide; [|by apply Hw]. subst i.
    destruct (Map.m_tiles m !! Z.to_nat y) as [row0|] eqn:Hrow; [|done].
    simpl. intros [= <-]. rewrite length_insert. by eapply Hw.
Qed.

Lemma getTile_setTile (x y : Z) (ty : TileType) (m : Map.t) (x' y' : Z) :
  grid_ok m ->
  Map.getTile (Map.setTile x y ty m) x' y'
  = if decide (x' = x /\ y' = y /\ Map.isValidPosition m x y = true)
    then Some (canonical_tile ty) else Map.getTile m x' y'.
Proof.
  intros [Hh Hw]. unfold Map.setTile.
  destruct (Map.isValidPosition m x y) eqn:Hv; simpl;
    [|by rewrite decide_False by (by intros (_ & _ & ?))].
  unfold Map.isValidPosition in Hv.
  rewrite !andb_true_iff in Hv. destruct Hv as [[[Hx0 Hx1] Hy0] Hy1].
  apply Z.leb_le in Hx0, Hy0. apply Z.ltb_lt in Hx1, Hy1.
  unfold Map.getTile. simpl.
  destruct (Z.leb_spec 0 x') as [Hx'|Hx']; destruct (Z.leb_spec 0 y') as [Hy'|Hy'];
    simpl; try (by rewrite decide_False by lia).
  rewrite list_lookup_alter.
  destruct (lookup_lt_is_Some_2 (Map.m_tiles m) (Z.to_nat y)) as [row Hrow];
    [lia|].
  pose proof (Hw _ _ Hrow) as Hlen.
  destruct (decide (Z.to_nat y = Z.to_nat y')) as [Hyy|Hyy].
  - assert (y' = y) as -> by lia. rewrite Hrow. simpl.
    rewrite list_lookup_insert.
    destruct (decide (Z.to_nat x = Z.to_nat x' /\ _)) as [[Hxx _]|Hxx].
    + rewrite decide_True by (repeat split; lia). by destruct ty.
    + by rewrite decide_False by lia.
  - by rewrite decide_False by lia.
Qed.

Lemma same_frame_valid (m m' : Map.t) (x y : Z) :
  same_frame m m' ->
  Map.isValidPosition m' x y = Map.isValidPosition m x y.
Proof. intros (Hw & Hh & _). unfold Map.isValidPosition. by rewrite Hw, Hh. Qed.

(** The inner loop of [generate]: one row segment set to [ty]. *)
Lemma fill_row_spec (xs : list Z) (y : Z) (ty : TileType) (m : Map.t) :
  grid_ok m ->
  let m' := foldl (fun acc x => Map.setTile x y ty acc) m xs in
  grid_ok m' /\ same_frame m m'
  /\ forall x' y',
       Map.getTile m' x' y'
       = if decide (x' ∈ xs /\ y' = y /\ Map.isValidPosition m x' y' = true)
         then Some (canonical_tile ty) else Map.getTile m x' y'.
Proof.
  revert m. induction xs as [|x xs IH]; intros m Hok; cbn [foldl]; cbv zeta.
  - split; [done|]. split; [done|]. intros x' y'.
    rewrite decide_False; [done|]. intros [Hin _]. by apply elem_of_nil in Hin.
  - destruct (IH (Map.setTile x y ty m) (grid_ok_setTile x y ty m Hok))
      as (Hok' & (Hw & Hh & Hs) & Hget).
    destruct (setTile_dims x y ty m) as (Hw1 & Hh1 & Hs1).
    split; [done|]. split; [unfold same_frame; by rewrite Hw, Hh, Hs|].
    intros x' y'. rewrite Hget, setTile_valid, getTile_setTile by done.
    repeat case_decide; try done; exfalso;
      rewrite ?elem_of_cons in *; intuition (subst; eauto).
Qed.

(** Both loops of [generate]: a rectangle set to [ty]. *)
Lemma fill_rect_spec (ys xs : list Z) (ty : TileType) (m : Map.t) :
  grid_ok m ->
  let m' := foldl (fun acc y =>
                     foldl (fun acc x => Map.setTile x y ty acc) acc xs)
                  m ys in
  grid_ok m' /\ same_frame m m'
  /\ forall x' y',
       Map.getTile m' x' y'
       = if decide (x' ∈ xs /\ y' ∈ ys /\ Map.isValidPosition m x' y' = true)
         then Some (canonical_tile ty) else Map.getTile m x' y'.
Proof.
  revert m. induction ys as [|y ys IH]; intros m Hok; cbn [foldl]; cbv zeta.
  - split; [done|]. split; [done|]. intros x' y'.
    rewrite decide_False; [done|]. intros (_ & Hin & _).
    by apply elem_of_nil in Hin.
  - destruct (fill_row_spec xs y ty m Hok) as (Hok1 & Hfr1 & Hget1).
    destruct (IH _ Hok1) as (Hok' & (Hw & Hh & Hs) & Hget).
    destruct Hfr1 as (Hw1 & Hh1 & Hs1).
    split; [done|]. split; [unfold same_frame; by rewrite Hw, Hh, Hs|].
    intros x' y'.
    rewrite Hget, Hget1, (same_frame_valid m _ x' y') by done.
    repeat case_decide; try done; exfalso;
      rewrite ?elem_of_cons in *; intuition (subst; eauto).
Qed.
End Grid.

(** ** The generator *)

(** [lia] after turning each truncating division into its equations. *)
Ltac quot_lia := Z.to_euclidean_division_equations; lia.

Section Generator.
Context `{Constants} {R : Type} `{!RandomSource R}.

Lemma generate_tiles (w h : Z) (gen : DungeonGenerator.t R) :
  2 <= w <= INT_MAX -> 2 <= h <= INT_MAX ->
  let m := (DungeonGenerator.generate w h gen).1 in
  exists sx sy,
    Map.m_stairsDown m = (sx, sy)
    /\ in_room w h sx sy
    /\ Map.m_width m = w /\ Map.m_height m = h
    /\ forall x y,
         Map.getTile m x y
         = if decide (0 <= x < w /\ 0 <= y < h)
           then Some (if decide (x = sx /\ y = sy) then canonical_tile StairsDown
                      else if decide (in_room w h x y) then canonical_tile Floor
                      else canonical_tile Wall)
           else None.
Proof.
  intros Hw Hh. unfold INT_MAX in *.
  assert (0 <= w ÷ 4 /\ 1 <= w ÷ 2 /\ w ÷ 4 + w ÷ 2 <= w - 1) as Hqw by quot_lia.
  assert (0 <= h ÷ 4 /\ 1 <= h ÷ 2 /\ h ÷ 4 + h ÷ 2 <= h - 1) as Hqh by quot_lia.
  unfold DungeonGenerator.generate, for_range.
  rewrite !int_add_exact, !int_sub_exact
    by (unfold in_int, INT_MIN, INT_MAX; lia).
  rewrite !Z.min_l by lia.
  set (xs := seqZ (w ÷ 4) (w ÷ 4 + w ÷ 2 - w ÷ 4)).
  set (ys := seqZ (h ÷ 4) (h ÷ 4 + h ÷ 2 - h ÷ 4)).
  destruct (fill_rect_spec ys xs Floor (Map.new w h) (grid_ok_new w h))
    as (Hok & (Hfw & Hfh & Hfs) & Hget).
  set (m1 := foldl _ (Map.new w h) ys) in *. clearbody m1.
  pose proof (uniform_int_range (w ÷ 4) (w ÷ 4 + w ÷ 2 - 1)
                (DungeonGenerator.m_rng gen) ltac:(lia)) as Hsx.
  destruct (uniform_int (w ÷ 4) _ (DungeonGenerator.m_rng gen)) as [sx rng1].
  pose proof (uniform_int_range (h ÷ 4) (h ÷ 4 + h ÷ 2 - 1) rng1 ltac:(lia))
    as Hsy.
  destruct (uniform_int (h ÷ 4) _ rng1) as [sy rng2].
  simpl in Hsx, Hsy. cbn [fst snd]. simpl in Hfw, Hfh.
  pose proof (setTile_dims sx sy StairsDown m1) as (Hw1 & Hh1 & Hs1).
  exists sx, sy. split; [done|]. split; [unfold in_room; lia|].
  split; [simpl; congruence|]. split; [simpl; congruence|].
  intros x y.
  change (Map.getTile (Map.setStairsDown (sx, sy) ?m) x y)
    with (Map.getTile m x y).
  rewrite getTile_setTile, Hget, getTile_new by done.
  assert (Map.isValidPosition m1 sx sy = true) as Hvs.
  { unfold Map.isValidPosition. rewrite Hfw, Hfh.
    repeat (apply andb_true_intro; split);
      first [apply Z.leb_le | apply Z.ltb_lt]; lia. }
  assert (forall a b, Map.isValidPosition (Map.new w h) a b = true
                      <-> 0 <= a < w /\ 0 <= b < h) as Hval.
  { intros a b. unfold Map.isValidPosition. simpl.
    rewrite !andb_true_iff, !Z.leb_le, !Z.ltb_lt. lia. }
  assert (x ∈ xs /\ y ∈ ys <-> in_room w h x y) as Hroom.
  { unfold xs, ys, in_room. rewrite !elem_of_seqZ. lia. }
  assert (in_room w h x y -> 0 <= x < w /\ 0 <= y < h) as Hinside.
  { unfold in_room. lia. }
  clearbody xs ys.
  destruct (Map.isValidPosition (Map.new w h) x y) eqn:Hv.
  - apply Hval in Hv.
    repeat case_decide; try done; exfalso; intuition (subst; eauto); lia.
  - assert (~ (0 <= x < w /\ 0 <= y < h)) as Hnv.
    { intros Hc. apply Hval in Hc. congruence. }
    repeat case_decide; try done; exfalso; intuition (subst; eauto); lia.
Qed.

Lemma walk_step_sym (m : Map.t) : Symmetric (walk_step m).
Proof. intros a b (Hd & Ha & Hb). repeat split; [lia|done..]. Qed.

(** A map whose walkable cells form a rectangle: every cell of the
    rectangle is reached from its corner, first along the top row, then
    down the column. *)
Lemma rectangle_connected (m : Map.t) (x0 x1 y0 y1 : Z) :
  (forall x y, Map.isWalkable m x y = true
               <-> (x0 <= x < x1 /\ y0 <= y < y1)) ->
  forall a b : Position,
    Map.isWalkable m a.1 a.2 = true ->
    Map.isWalkable m b.1 b.2 = true ->
    connected m a b.
Proof.
  intros Hwalk. unfold connected.
  assert (forall (n : nat) y, x0 + Z.of_nat n < x1 -> y0 <= y < y1 ->
            rtc (walk_step m) (x0, y) (x0 + Z.of_nat n, y)) as Hrow.
  { induction n as [|n IH]; intros y Hn Hy.
    - rewrite Z.add_0_r. apply rtc_refl.
    - eapply rtc_r; [apply IH; lia|].
      repeat split; simpl; [lia|apply Hwalk; lia..]. }
  assert (forall (n : nat) x, x0 <= x < x1 -> y0 + Z.of_nat n < y1 ->
            rtc (walk_step m) (x, y0) (x, y0 + Z.of_nat n)) as Hcol.
  { induction n as [|n IH]; intros x Hx Hn.
    - rewrite Z.add_0_r. apply rtc_refl.
    - eapply rtc_r; [apply IH; lia|].
      repeat split; simpl; [lia|apply Hwalk; lia..]. }
  assert (forall c : Position, Map.isWalkable m c.1 c.2 = true ->
            rtc (walk_step m) (x0, y0) c) as Hcorner.
  { intros [x y] Hc. simpl in Hc. apply Hwalk in Hc.
    apply rtc_trans with (x, y0).
    - replace x with (x0 + Z.of_nat (Z.to_nat (x - x0))) by lia.
      apply Hrow; lia.
    - replace y with (y0 + Z.of_nat (Z.to_nat (y - y0))) by lia.
      apply Hcol; lia. }
  intros a b Ha Hb. etrans; [|by apply Hcorner].
  pose proof (walk_step_sym m) as Hsym.
  symmetry. by apply Hcorner.
Qed.

(** C4: for a width and a height from 8 up and any engine, the map of
    [generate] has a single stairway-down cell, which is the recorded
    [stairsDown] position and lies in the room; the walkable cells are
    exactly the cells of the room, floor everywhere but on the stairway,
    there is such a floor cell, and every walkable cell is reached from
    the stairway over walkable cells; every other cell of the grid, the
    whole outer border included, is a wall. *)
Theorem generate_single_stairway_in_room
    (w h : Z) (gen : DungeonGenerator.t R) :
  8 <= w <= INT_MAX -> 8 <= h <= INT_MAX ->
  let m := (DungeonGenerator.generate w h gen).1 in
  exists sx sy,
    Map.m_stairsDown m = (sx, sy)
    /\ (forall x y, Tile.type <$> Map.getTile m x y = Some StairsDown
                    <-> x = sx /\ y = sy)
    /\ in_room w h sx sy
    /\ (forall x y, Map.isWalkable m x y = true <-> in_room w h x y)
    /\ (forall x y, in_room w h x y -> ~ (x = sx /\ y = sy) ->
                    Map.getTile m x y = Some (canonical_tile Floor))
    /\ (exists fx fy, Map.getTile m fx fy = Some (canonical_tile Floor))
    /\ (forall x y, Map.isWalkable m x y = true ->
                    connected m (sx, sy) (x, y))
    /\ (forall x y, 0 <= x < w -> 0 <= y < h -> ~ in_room w h x y ->
                    Map.getTile m x y = Some (canonical_tile Wall))
    /\ (forall x y, 0 <= x < w -> 0 <= y < h ->
                    x = 0 \/ x = w - 1 \/ y = 0 \/ y = h - 1 ->
                    Map.getTile m x y = Some (canonical_tile Wall)
                    /\ Map.isWalkable m x y = false).
Proof.
  intros Hw Hh m.
  destruct (generate_tiles w h gen ltac:(lia) ltac:(lia))
    as (sx & sy & Hst & Hin & Hmw & Hmh & Hget).
  fold m in Hst, Hmw, Hmh, Hget.
  assert (forall x y, in_room w h x y ->
            1 <= x < w - 1 /\ 1 <= y < h - 1) as Hinner.
  { clear -Hw Hh. unfold in_room, INT_MAX in *. intros x y [Hx Hy]. quot_lia. }
  assert (forall x y, Map.isWalkable m x y = true <-> in_room w h x y) as Hwalk.
  { intros x y. unfold Map.isWalkable, Map.isValidPosition.
    rewrite Hmw, Hmh, Hget. split.
    - destruct (Z.leb_spec 0 x) as [Hx0|Hx0]; [|done].
      destruct (Z.ltb_spec x w) as [Hx1|Hx1]; [|done].
      destruct (Z.leb_spec 0 y) as [Hy0|Hy0]; [|done].
      destruct (Z.ltb_spec y h) as [Hy1|Hy1]; [|done]. simpl.
      rewrite decide_True by lia.
      destruct (decide (x = sx /\ y = sy)) as [[-> ->]|_]; [done|].
      by destruct (decide (in_room w h x y)).
    - intros Hr. destruct (Hinner x y Hr) as [Hx Hy].
      destruct (Z.leb_spec 0 x) as [Hx0|Hx0]; [|lia].
      destruct (Z.ltb_spec x w) as [Hx1|Hx1]; [|lia].
      destruct (Z.leb_spec 0 y) as [Hy0|Hy0]; [|lia].
      destruct (Z.ltb_spec y h) as [Hy1|Hy1]; [|lia]. simpl.
      rewrite decide_True by lia.
      destruct (decide (x = sx /\ y = sy)); [done|].
      by rewrite decide_True. }
  assert (forall x y, 0 <= x < w -> 0 <= y < h -> ~ in_room w h x y ->
            Map.getTile m x y = Some (canonical_tile Wall)) as Hwall.
  { intros x y Hx Hy Hout. rewrite Hget, decide_True by lia.
    rewrite decide_False by (by intros [-> ->]).
    by rewrite decide_False. }
  exists sx, sy. split; [done|]. split.
  { intros x y. rewrite Hget. split.
    - destruct (decide (0 <= x < w /\ 0 <= y < h)); [|done].
      destruct (decide (x = sx /\ y = sy)); [done|].
      by destruct (decide (in_room w h x y)).
    - intros [-> ->]. destruct (Hinner sx sy Hin).
      rewrite decide_True by lia. by rewrite decide_True. }
  split; [done|]. split; [done|]. split.
  { intros x y Hr Hne. destruct (Hinner x y Hr).
    rewrite Hget, decide_True by lia. rewrite decide_False by done.
    by rewrite decide_True. }
  split.
  { assert (in_room w h (w ÷ 4) (h ÷ 4) /\ in_room w h (w ÷ 4 + 1) (h ÷ 4))
      as [Hc0 Hc1] by (clear -Hw Hh; unfold in_room, INT_MAX in *; quot_lia).
    destruct (decide (sx = w ÷ 4)) as [Hsx|Hsx].
    - exists (w ÷ 4 + 1), (h ÷ 4). destruct (Hinner _ _ Hc1).
      rewrite Hget, decide_True by lia. rewrite decide_False by lia.
      by rewrite decide_True.
    - exists (w ÷ 4), (h ÷ 4). destruct (Hinner _ _ Hc0).
      rewrite Hget, decide_True by lia. rewrite decide_False by lia.
      by rewrite decide_True. }
  split.
  { intros x y Hxy.
    apply (rectangle_connected m (w ÷ 4) (w ÷ 4 + w ÷ 2) (h ÷ 4) (h ÷ 4 + h ÷ 2));
      [apply Hwalk| |done].
    simpl. by apply Hwalk. }
  split; [done|].
  intros x y Hx Hy Hb.
  assert (~ in_room w h x y) as Hout.
  { intros Hr. destruct (Hinner x y Hr). lia. }
  split; [by apply Hwall|].
  destruct (Map.isWalkable m x y) eqn:Hwk; [|done]. by apply Hwalk in Hwk.
Qed.
End Generator.

(** ** Decimal text read back *)

Lemma digit_char_spec (d : N) :
  (d < 10)%N ->
  is_digit (digit_char d) = true /\ digit_value (digit_char d) = d
  /\ is_space (digit_char d) = false
  /\ digit_char d <> "-"%char /\ digit_char d <> "+"%char.
Proof.
  intros Hd.
  assert (d = 0 \/ d = 1 \/ d = 2 \/ d = 3 \/ d = 4 \/ d = 5 \/ d = 6
          \/ d = 7 \/ d = 8 \/ d = 9)%N as Hcases by lia.
  repeat (destruct Hcases as [->|Hcases]); try subst d; by vm_compute.
Qed.

Lemma digits_acc_head (fuel : nat) (n : N) (acc : string) :
  exists c s, digits_acc fuel n acc = String c s
              /\ is_digit c = true /\ is_space c = false
              /\ c <> "-"%char /\ c <> "+"%char.
Proof.
  revert n acc. induction fuel as [|fuel IH]; intros n acc; simpl.
  - destruct (digit_char_spec (n mod 10)) as (? & _ & ? & ? & ?);
      [apply N.mod_lt; lia|]. eauto 10.
  - destruct (n <? 10)%N; [|apply IH].
    destruct (digit_char_spec (n mod 10)) as (? & _ & ? & ? & ?);
      [apply N.mod_lt; lia|]. eauto 10.
Qed.

Lemma read_digits_digits_acc (fuel : nat) (n : N) (acc rest : string) :
  (n < 10 ^ N.of_nat (S fuel))%N ->
  read_digits (digits_acc fuel n acc +:+ rest) 0
  = read_digits (acc +:+ rest) n.
Proof.
  revert n acc. induction fuel as [|fuel IH]; intros n acc Hn.
  - change (10 ^ N.of_nat 1)%N with 10%N in Hn. simpl.
    rewrite N.mod_small by done.
    destruct (digit_char_spec n Hn) as (-> & -> & _). done.
  - simpl digits_acc. destruct (N.ltb_spec n 10) as [Hlt|Hge].
    + simpl. rewrite N.mod_small by done.
      destruct (digit_char_spec n Hlt) as (-> & -> & _). done.
    + rewrite IH.
      * simpl.
        destruct (digit_char_spec (n mod 10)) as (-> & -> & _);
          [apply N.mod_lt; lia|].
        f_equal. pose proof (N.div_mod n 10). lia.
      * apply N.Div0.div_lt_upper_bound.
        rewrite <- N.pow_succ_r'. by rewrite <- Nat2N.inj_succ.
Qed.

Lemma digits_of_N_fuel (n : N) :
  (n < 10 ^ N.of_nat (S (N.to_nat (N.log2 n))))%N.
Proof.
  rewrite Nat2N.inj_succ, N2Nat.id.
  destruct (decide (n = 0%N)) as [->|Hn]; [done|].
  destruct (N.log2_spec n) as [_ Hlt]; [lia|].
  eapply N.lt_le_trans; [done|]. apply N.pow_le_mono_l. lia.
Qed.

Lemma read_digits_digits_of_N (n : N) (rest : string) :
  read_digits (digits_of_N n +:+ rest) 0 = read_digits rest n.
Proof.
  unfold digits_of_N. rewrite read_digits_digits_acc by apply digits_of_N_fuel.
  done.
Qed.

Lemma read_digits_stop (c : ascii) (rest : string) (n : N) :
  is_digit c = false -> read_digits (String c rest) n = (n, String c rest).
Proof. intros Hc. simpl. by rewrite Hc. Qed.

(** [file >> n] on a stream in a good state. *)
Lemma extract_int_good (b : string) :
  IStream.extract_int (IStream.make b false false)
  = match skip_ws b with
    | EmptyString => (None, IStream.make EmptyString true true)
    | String c rest as b' =>
        let '(neg, b1) :=
          if decide (c = "-"%char) then (true, rest)
          else if decide (c = "+"%char) then (false, rest)
          else (false, b') in
        let '(n, b2) := read_digits b1 0%N in
        if negb (starts_with_digit b1)
        then (Some 0, IStream.make b2 (is_empty b2) true)
        else
          let v := if neg : bool then - Z.of_N n else Z.of_N n in
          if v <? INT_MIN
          then (Some INT_MIN, IStream.make b2 (is_empty b2) true)
          else if INT_MAX <? v
               then (Some INT_MAX, IStream.make b2 (is_empty b2) true)
               else (Some v, IStream.make b2 (is_empty b2) false)
    end.
Proof. reflexivity. Qed.

Lemma append_String (a : ascii) (s t : string) :
  String a s +:+ t = String a (s +:+ t).
Proof. reflexivity. Qed.

Lemma append_empty (t : string) : EmptyString +:+ t = t.
Proof. reflexivity. Qed.

(** [file >> n] right after the text of an [int] written by [operator<<]
    and followed by a character that is no digit reads that [int] back. *)
Lemma extract_int_to_string (z : Z) (c : ascii) (rest : string) :
  in_int z -> is_digit c = false ->
  IStream.extract_int
    (IStream.make (to_string z +:+ String c rest) false false)
  = (Some z, IStream.make (String c rest) false false).
Proof.
  intros Hz Hc. rewrite extract_int_good. unfold to_string.
  assert (forall v, in_int v -> (v <? INT_MIN) = false /\ (INT_MAX <? v) = false)
    as Hrange.
  { intros v [Hlo Hhi]. split; [apply Z.ltb_ge|apply Z.ltb_ge]; lia. }
  destruct (Z.ltb_spec z 0) as [Hneg|Hpos].
  - set (n := Z.to_N (- z)).
    destruct (digits_acc_head (N.to_nat (N.log2 n)) n "")
      as (d & s & Hd & Hdig & _).
    change (digits_acc (N.to_nat (N.log2 n)) n "") with (digits_of_N n) in Hd.
    rewrite append_String. cbn [skip_ws]. change (is_space "-") with false.
    cbv iota. rewrite decide_True by done.
    rewrite read_digits_digits_of_N, read_digits_stop by done.
    rewrite Hd, append_String. cbn [starts_with_digit]. rewrite Hdig.
    cbn [negb is_empty]. replace (- Z.of_N n) with z by lia.
    by destruct (Hrange z Hz) as [-> ->].
  - set (n := Z.to_N z).
    destruct (digits_acc_head (N.to_nat (N.log2 n)) n "")
      as (d & s & Hd & Hdig & Hsp & Hm & Hp).
    change (digits_acc (N.to_nat (N.log2 n)) n "") with (digits_of_N n) in Hd.
    pose proof (read_digits_digits_of_N n (String c rest)) as Hread.
    rewrite Hd in *. rewrite append_String in *. cbn [skip_ws]. rewrite Hsp.
    rewrite decide_False by done. rewrite decide_False by done.
    rewrite Hread, read_digits_stop by done.
    cbn [starts_with_digit]. rewrite Hdig.
    cbn [negb is_empty]. replace (Z.of_N n) with z by lia.
    by destruct (Hrange z Hz) as [-> ->].
Qed.

Lemma extract_int_skip (sep : ascii) (b : string) :
  is_space sep = true ->
  IStream.extract_int (IStream.make (String sep b) false false)
  = IStream.extract_int (IStream.make b false false).
Proof.
  intros Hsep. unfold IStream.extract_int. simpl. by rewrite Hsep.
Qed.

Lemma read_line_line (line rest : string) :
  contains newline line = false ->
  read_line (line +:+ String newline rest) = (line, Some rest).
Proof.
  induction line as [|c line IH];
    rewrite ?append_empty, ?append_String; cbn [read_line contains].
  - by rewrite decide_True.
  - destruct (decide (c = newline)); [done|]. intros Hl. by rewrite IH.
Qed.

(** ** Saving and loading *)

Section SaveLoad.
Context `{Constants} {R : Type} `{!RandomSource R}.

#[local] Arguments Game.spawnEnemies_loop : simpl never.

(** [loadGame] on a file holding what [saveGame] writes for [p]. *)
Lemma loadGame_saved
    (filename : string) (fs : FileSystem) (g0 : Game.t R) (p : Player.t) :
  files fs !! filename = Some (Game.save_text p) ->
  is_Some (Game.m_generator g0) ->
  contains newline (Player.name p) = false ->
  Forall in_int (Player.stats p) ->
  exists g' p',
    Game.loadGame filename fs g0 = Some (true, g')
    /\ Game.m_player g' = Some p'
    /\ Player.name p' = Player.name p
    /\ Player.stats p' = Player.stats p
    /\ Player.pos p' = (5, 5)
    /\ Game.m_state g' = Playing.
Proof.
  intros Hfile [gen Hgen] Hname Hall. unfold Player.stats in Hall.
  repeat match goal with
         | Hf : Forall _ (_ :: _) |- _ =>
             apply Forall_cons in Hf as [? Hf]
         end.
  unfold Game.loadGame. rewrite Hfile. unfold Game.save_text.
  unfold IStream.open, IStream.getline. cbn [IStream.good IStream.buf
    IStream.eofbit IStream.failbit negb andb].
  rewrite read_line_line by done.
  rewrite !append_String, !append_empty.
  repeat (rewrite ?extract_int_skip by done;
          rewrite extract_int_to_string by done; cbv beta iota).
  simpl. rewrite Hgen. simpl.
  destruct (DungeonGenerator.generate MAP_WIDTH MAP_HEIGHT gen) as [map gen'].
  unfold Game.spawnEnemies. change (Z.to_nat 5) with 5%nat.
  edestruct (spawnEnemies_loop_spec 5)
    as (g1 & new & Hrun & _ & _ & _ & _ & _ & Hp1 & _);
    [|rewrite Hrun]; [by eexists|].
  simpl in Hp1. simpl.
  eexists _, _. split; [done|]. simpl. split; [done|]. done.
Qed.

(** C9, amended: for a player whose name holds no line feed and whose
    eight numbers are [int]s, [saveGame] into a file that can be written
    followed by [loadGame] of that file, in a session that has its
    generator, succeeds and yields a player with the same name and the
    same eight numbers. *)
Theorem save_load_round_trip
    (filename : string) (fs : FileSystem) (g g0 : Game.t R) (p : Player.t) :
  Game.m_player g = Some p ->
  filename ∉ unwritable fs ->
  is_Some (Game.m_generator g0) ->
  contains newline (Player.name p) = false ->
  Forall in_int (Player.stats p) ->
  exists fs' g' p',
    Game.saveGame filename fs g = Some (true, fs')
    /\ Game.loadGame filename fs' g0 = Some (true, g')
    /\ Game.m_player g' = Some p'
    /\ Player.name p' = Player.name p
    /\ Player.stats p' = Player.stats p.
Proof.
  intros Hp Hw Hgen Hname Hall. unfold Game.saveGame.
  rewrite decide_False by done. rewrite Hp. simpl.
  set (fs' := {| files := _; unwritable := _ |}).
  destruct (loadGame_saved filename fs' g0 p) as (g' & p' & Hl & Hp' & Hn & Hs & _);
    [by apply lookup_insert_eq|done..|].
  by exists fs', g', p'.
Qed.
End SaveLoad.

(** * The model at work: small runs *)

Example to_string_runs :
  to_string 0 = "0" /\ to_string (-42) = "-42"
  /\ to_string 2147483647 = "2147483647"
  /\ to_string (-2147483648) = "-2147483648".
Proof. by vm_compute. Qed.

(** Leading blanks are skipped and the number ends at the first character
    that is no digit; without a digit 0 is stored and the stream fails; at
    the end of the text nothing is stored; too large a number is clamped. *)
Example extract_int_runs :
  IStream.extract_int (IStream.open " 17 x")
  = (Some 17, IStream.make " x" false false)
  /\ IStream.extract_int (IStream.open "-8")
     = (Some (-8), IStream.make "" true false)
  /\ IStream.extract_int (IStream.open "abc")
     = (Some 0, IStream.make "abc" false true)
  /\ IStream.extract_int (IStream.open "  ")
     = (None, IStream.make "" true true)
  /\ IStream.extract_int (IStream.open "99999999999")
     = (Some INT_MAX, IStream.make "" true true).
Proof. by vm_compute. Qed.

Example getline_runs :
  IStream.getline (IStream.open ("Hero" +:+ String newline "1 2")) ""
  = ("Hero", IStream.make "1 2" false false)
  /\ IStream.getline (IStream.open "") "" = ("", IStream.make "" true true).
Proof. by vm_compute. Qed.

(** The inventory takes a twenty-first item and refuses the next. *)
Example addItem_runs :
  let fill n p := Nat.iter n (fun p => (Player.addItem health_potion p).1) p in
  let p := Player.new 1%N "Hero" (5, 5) in
  length (Player.inventory (fill 21%nat p)) = 21%nat
  /\ Player.addItem health_potion (fill 21%nat p) = (fill 21%nat p, false).
Proof. by vm_compute. Qed.

Example heal_runs :
  let p := Player.set_health 90 (Player.new 1%N "Hero" (5, 5)) in
  Player.health (Player.heal 5 p) = 95 /\ Player.health (Player.heal 20 p) = 100.
Proof. by vm_compute. Qed.

(** * The model at work: concrete sessions *)

Ltac int_bounds := unfold in_int, INT_MIN, INT_MAX; simpl; lia.

Section Sessions.
#[local] Existing Instance small_grid.

(** C6: where the code departs from the claim.  When the engine draws
    6 for the archetype of the first enemy, [newGame] puts a dragon with
    health 0 among the five enemies: it is not alive. *)
Theorem newGame_spawns_dead_dragon :
  exists g' e,
    Game.newGame "Hero" (scripted_game [0; 0; 22; 6; 6]) = Some g'
    /\ length (Game.m_enemies g') = 5%nat
    /\ Game.m_enemies g' !! 0%nat = Some e
    /\ Enemy.type e = Dragon
    /\ Enemy.health e = 0
    /\ Enemy.isAlive e = false.
Proof. eexists _, _. split; [by vm_compute|]. by vm_compute. Qed.

(** C3 as stated fails: with the stairway two cells to the east, a move
    east ends on the spawn cell of the next level, not on (5, 3). *)
Lemma handleMovement_onto_stairs_relocates :
  ~ lands_on_step East stairs_ahead.
Proof.
  intros Hclaim.
  destruct (Hclaim hero ltac:(by vm_compute)) as (g' & p' & Hrun & Hp & Hpos).
  vm_compute in Hrun. injection Hrun as <-.
  vm_compute in Hp. injection Hp as <-. by vm_compute in Hpos.
Qed.

(** C9 as stated fails: the second line of the name is read as the
    numbers, and the name comes back cut at the line feed. *)
Lemma save_load_two_line_name :
  ~ round_trips "save" no_files two_liner (scripted_game []).
Proof.
  intros Hclaim.
  destruct (Hclaim (Player.set_pos (3, 3) (Player.new 1%N two_line_name (5, 5)))
              ltac:(by vm_compute))
    as (fs' & g' & p' & Hsave & Hload & Hp & Hname & _).
  vm_compute in Hsave. injection Hsave as <-.
  vm_compute in Hload. injection Hload as <-.
  vm_compute in Hp. injection Hp as <-. by vm_compute in Hname.
Qed.

(** C1 at work: east of the hero of [goblin_ahead] stands a goblin, east
    of the hero of [rat_ahead] a rat.  The move east onto the goblin takes
    it from 20 to 15 and, still alive, it takes 3 off the player's 100;
    the move east onto the rat takes it from 5 to 0 and the player,
    unhurt, earns 10 experience and 5 gold. *)
Lemma handleMovement_combat_attacker_first_witness :
  (exists g' p' e',
     Game.handleMovement East goblin_ahead = Some g'
     /\ Game.m_player g' = Some p'
     /\ Game.m_enemies g' !! 0%nat = Some e'
     /\ Enemy.health e' = 15
     /\ Player.health p' = 97)
  /\ (exists g' p' e',
        Game.handleMovement East rat_ahead = Some g'
        /\ Game.m_player g' = Some p'
        /\ Game.m_enemies g' !! 0%nat = Some e'
        /\ Enemy.health e' = 0
        /\ Player.health p' = 100
        /\ Player.experience p' = 10
        /\ Player.gold p' = 5).
Proof.
  split.
  - destruct (handleMovement_combat_attacker_first East goblin_ahead hero
                dragon_ahead_map (canonical_tile Floor) 0 goblin
                ltac:(by vm_compute) ltac:(by vm_compute)
                ltac:(by vm_compute) ltac:(by vm_compute)
                ltac:(by vm_compute) ltac:(by vm_compute)
                ltac:(intros j e0 Hj; lia) ltac:(int_bounds))
      as (g' & p' & e' & Hrun & _ & Hp & _ & He & _ & Hh & Halive & _).
    exists g', p', e'.
    split; [apply Hrun; discriminate|]. split; [exact Hp|].
    split; [exact He|]. split; [exact Hh|].
    apply Halive; [rewrite Hh; reflexivity|int_bounds..].
  - destruct (handleMovement_combat_attacker_first East rat_ahead hero
                dragon_ahead_map (canonical_tile Floor) 0 rat
                ltac:(by vm_compute) ltac:(by vm_compute)
                ltac:(by vm_compute) ltac:(by vm_compute)
                ltac:(by vm_compute) ltac:(by vm_compute)
                ltac:(intros j e0 Hj; lia) ltac:(int_bounds))
      as (g' & p' & e' & Hrun & _ & Hp & _ & He & _ & Hh & _ & Hdead).
    exists g', p', e'.
    split; [apply Hrun; discriminate|]. split; [exact Hp|].
    split; [exact He|]. split; [exact Hh|].
    apply Hdead; [rewrite Hh; simpl; lia|int_bounds..].
Defined.

(** C3, amended, at work: before a session starts a move changes
    nothing; from the top row of the room a move north puts the player on
    (3, 1), which is a wall. *)
Lemma handleMovement_moves_regardless_witness :
  Game.handleMovement North (scripted_game []) = Some (scripted_game [])
  /\ exists g' p',
       Game.handleMovement North below_wall = Some g'
       /\ Game.m_player g' = Some p'
       /\ Player.pos p' = (3, 1)
       /\ Map.isWalkable stairs_ahead_map 3 1 = false.
Proof.
  split.
  - exact (proj1 (handleMovement_moves_regardless North (scripted_game []))
             (or_introl eq_refl)).
  - destruct (proj2 (handleMovement_moves_regardless North below_wall)
                (Player.set_pos (3, 2) hero) stairs_ahead_map
                (canonical_tile Wall)
                ltac:(by vm_compute) ltac:(by vm_compute)
                ltac:(int_bounds) ltac:(int_bounds)
                ltac:(by vm_compute) ltac:(by intros [=]))
      as (g' & p' & Hrun & Hp & Hpos).
    exists g', p'. split; [exact Hrun|]. split; [exact Hp|].
    split; [|by vm_compute]. rewrite Hpos. by vm_compute.
Defined.

(** C4 at work on the smallest map of the claim. *)
Lemma generate_single_stairway_in_room_witness :
  let m := (DungeonGenerator.generate 8 8 (DungeonGenerator.make 0 [1; 2])).1 in
  exists sx sy,
    Map.m_stairsDown m = (sx, sy) /\ Map.isWalkable m sx sy = true.
Proof.
  intros m.
  destruct (generate_single_stairway_in_room 8 8
              (DungeonGenerator.make 0 [1; 2])
              ltac:(unfold INT_MAX; lia) ltac:(unfold INT_MAX; lia))
    as (sx & sy & Hst & _ & Hin & Hwalk & _).
  exists sx, sy. split; [done|]. by apply Hwalk.
Defined.


(** C8 at work: of seven messages the last five remain, in order. *)
Lemma addMessage_log_bounded_fifo_witness :
  Game.m_messages
    (addMessages ["m1"; "m2"; "m3"; "m4"; "m5"; "m6"; "m7"] (scripted_game []))
  = ["m3"; "m4"; "m5"; "m6"; "m7"].
Proof.
  rewrite (proj1 (addMessage_log_bounded_fifo (scripted_game [])
                    ["m1"; "m2"; "m3"; "m4"; "m5"; "m6"; "m7"]
                    ltac:(unfold MAX_MESSAGES; simpl; lia))).
  by vm_compute.
Defined.

(** C9, amended, at work: the hero of [stairs_ahead] saved and loaded. *)
Lemma save_load_round_trip_witness :
  exists fs' g' p',
    Game.saveGame "save" no_files stairs_ahead = Some (true, fs')
    /\ Game.loadGame "save" fs' (scripted_game []) = Some (true, g')
    /\ Game.m_player g' = Some p'
    /\ Player.name p' = "Hero"
    /\ Player.stats p' = [100; 100; 5; 2; 1; 0; 0; 1].
Proof.
  destruct (save_load_round_trip "save" no_files stairs_ahead
              (scripted_game []) hero
              ltac:(by vm_compute) ltac:(apply not_elem_of_empty)
              ltac:(by eexists) ltac:(by vm_compute)
              ltac:(repeat constructor; int_bounds))
    as (fs' & g' & p' & Hsave & Hload & Hp & Hname & Hstats).
  exists fs', g', p'.
  split; [exact Hsave|]. split; [exact Hload|]. split; [exact Hp|].
  split; [exact Hname|exact Hstats].
Defined.

(** C10 at work: the enemy [getEnemyAt] finds on (5, 3) in [goblin_ahead]
    has health above 0; the dragon of [dragon_ahead] lies dead two cells
    east, and the move there is the move alone: no health, experience or
    gold changes hands and the enemies stay as they are. *)
Lemma handleMovement_ignores_dead_witness :
  (exists e, Game.m_enemies goblin_ahead !! 0%nat = Some e
             /\ Enemy.pos e = (5, 3) /\ 0 < Enemy.health e)
  /\ exists g' p',
       Game.handleMovement East dragon_ahead = Some g'
       /\ Game.m_player g' = Some p'
       /\ Player.health p' = Player.health hero
       /\ Player.experience p' = Player.experience hero
       /\ Player.gold p' = Player.gold hero
       /\ Game.m_enemies g' = Game.m_enemies dragon_ahead.
Proof.
  split.
  - exact (proj1 (handleMovement_ignores_dead East goblin_ahead hero
                    dragon_ahead_map)
             (5, 3) 0%nat ltac:(by vm_compute)).
  - destruct (proj2 (handleMovement_ignores_dead East dragon_ahead hero
                       dragon_ahead_map)
                ltac:(by vm_compute) ltac:(by vm_compute)
                (only_dead_at_spec (Player.pos (Player.move East hero).1)
                   (Game.m_enemies dragon_ahead) ltac:(by vm_compute))
                (canonical_tile Floor) ltac:(by vm_compute))
      as [Hrun Hkeep].
    cbn [canonical_tile Tile.type] in Hrun.
    rewrite decide_False in Hrun by discriminate.
    destruct (Hkeep _ Hrun) as [(p' & Hp & Hh & Hx & Hg) Hrest].
    destruct Hrest as (Hen & _); [discriminate|].
    eexists _, p'. split; [exact Hrun|]. split; [exact Hp|].
    split; [exact Hh|]. split; [exact Hx|]. split; [exact Hg|exact Hen].
Defined.
End Sessions.

(** * Further properties of the code *)

(** ** The player *)

Lemma int_add_sub_cancel (z a : Z) :
  in_int z -> int_add (int_sub z a) a = z /\ int_sub (int_add z a) a = z.
Proof.
  unfold in_int, INT_MIN, INT_MAX, int_add, int_sub, wrap_int. intros Hz.
  split.
  - replace ((z - a + 2 ^ 31) mod 2 ^ 32 - 2 ^ 31 + a + 2 ^ 31)
      with ((z - a + 2 ^ 31) mod 2 ^ 32 + a) by lia.
    rewrite Zplus_mod_idemp_l.
    replace (z - a + 2 ^ 31 + a) with (z + 2 ^ 31) by lia.
    rewrite Z.mod_small by lia. lia.
  - replace ((z + a + 2 ^ 31) mod 2 ^ 32 - 2 ^ 31 - a + 2 ^ 31)
      with ((z + a + 2 ^ 31) mod 2 ^ 32 + - a) by lia.
    rewrite Zplus_mod_idemp_l.
    replace (z + a + 2 ^ 31 + - a) with (z + 2 ^ 31) by lia.
    rewrite Z.mod_small by lia. lia.
Qed.

(** X1: [Player::heal] never leaves the health above [maxHealth]; a heal
    by a non-negative amount does not lower the health of a player that
    is within the maximum; and two such heals in a row are one heal by
    the sum. *)
Theorem heal_capped_and_additive (p : Player.t) (a b : Z) :
  Player.health (Player.heal a p) <= Player.maxHealth p
  /\ (0 <= a -> in_int (Player.health p + a) ->
      Player.health p <= Player.maxHealth p ->
      Player.health p <= Player.health (Player.heal a p))
  /\ (0 <= a -> 0 <= b -> in_int (Player.maxHealth p) ->
      in_int (Player.health p + b) -> in_int (Player.health p + b + a) ->
      Player.heal a (Player.heal b p) = Player.heal (a + b) p).
Proof.
  unfold Player.heal. simpl. split; [lia|]. split.
  - intros Ha Hsum Hle. rewrite int_add_exact by done. lia.
  - intros Ha Hb HM Hhb Hhba. unfold Player.set_health. simpl.
    rewrite (int_add_exact _ b) by done.
    rewrite (int_add_exact _ a)
      by (unfold in_int, INT_MIN, INT_MAX in *; lia).
    rewrite (int_add_exact _ (a + b))
      by (unfold in_int, INT_MIN, INT_MAX in *; lia).
    f_equal. lia.
Qed.

(** X2: [Player::addItem] keeps the items in the order they came and stops
    at 21: after any run of calls the inventory is the first 21 of the
    old inventory followed by the items offered; a call answers [true]
    exactly when the inventory held fewer than 21 items, and changes
    nothing when it answers [false]. *)
Theorem addItem_keeps_first_21 (p : Player.t) (items : list Item.t) :
  (length (Player.inventory p) <= 21)%nat ->
  Player.inventory (addItems items p)
  = take 21 (Player.inventory p ++ items)
  /\ (forall item,
        (Player.addItem item p).2
        = bool_decide (length (Player.inventory p) < 21)%nat
        /\ ((Player.addItem item p).2 = false -> (Player.addItem item p).1 = p)).
Proof.
  intros Hlen. split.
  - revert p Hlen. induction items as [|item items IH]; intros p Hlen.
    + simpl. rewrite app_nil_r. by rewrite firstn_all2.
    + unfold addItems in *. cbn [foldl]. unfold Player.addItem at 2.
      destruct (Nat.leb_spec (length (Player.inventory p)) 20) as [Hroom|Hfull].
      * cbn [fst]. rewrite IH by (simpl; rewrite length_app; simpl; lia).
        simpl. by rewrite <- app_assoc.
      * cbn [fst]. rewrite IH by done.
        rewrite !take_app_le by lia. done.
  - intros item. unfold Player.addItem.
    destruct (Nat.leb_spec (length (Player.inventory p)) 20) as [Hroom|Hfull];
      simpl.
    + split; [|done]. symmetry. apply bool_decide_eq_true. lia.
    + split; [|done]. symmetry. apply bool_decide_eq_false. lia.
Qed.

(** X3: [Player::move] from any position whose four neighbouring cells
    (x - 1, x + 2, y - 1, y + 1) are representable: north and south undo
    each other; east followed by west, and west followed by east, leave
    the player one cell east of the start. *)
Theorem move_there_and_back (p : Player.t) :
  in_int ((Player.pos p).1 - 1) -> in_int ((Player.pos p).1 + 2) ->
  in_int ((Player.pos p).2 - 1) -> in_int ((Player.pos p).2 + 1) ->
  let after d1 d2 := Player.pos (Player.move d2 (Player.move d1 p).1).1 in
  after North South = Player.pos p
  /\ after South North = Player.pos p
  /\ after East West = ((Player.pos p).1 + 1, (Player.pos p).2)
  /\ after West East = ((Player.pos p).1 + 1, (Player.pos p).2).
Proof.
  destruct (Player.pos p) as [x y] eqn:Hpos. simpl. intros Hw He Hn Hs.
  unfold Player.move. rewrite Hpos. simpl.
  rewrite (int_add_exact x 2), (int_sub_exact x 1), (int_add_exact y 1),
    (int_sub_exact y 1) by done.
  rewrite (int_add_exact (y - 1) 1), (int_sub_exact (y + 1) 1),
    (int_sub_exact (x + 2) 1), (int_add_exact (x - 1) 2)
    by (unfold in_int in *; lia).
  repeat split; f_equal; lia.
Qed.

(** ** The grid, further *)

Section GridFurther.
Context `{Constants}.

Lemma grid_ok_clear (m : Map.t) : grid_ok m -> grid_ok (Map.clear m).
Proof.
  intros [Hh Hw]. split; simpl; [by rewrite length_map|].
  intros i row Hrow.
  change (map (map (fun _ => Tile.make Wall "#"%char false)) (Map.m_tiles m))
    with (map (fun _ : Tile.t => Tile.make Wall "#"%char false)
            <$> Map.m_tiles m) in Hrow.
  rewrite list_lookup_fmap in Hrow.
  destruct (Map.m_tiles m !! i) as [row0|] eqn:Hrow0; [|done].
  injection Hrow as <-. rewrite length_map. by eapply Hw.
Qed.

Lemma built_grid_ok (m : Map.t) : built m -> grid_ok m.
Proof.
  induction 1 as [w h|x y ty m _ IH|pos m _ IH|m _ IH].
  - apply grid_ok_new.
  - by apply grid_ok_setTile.
  - exact IH.
  - by apply grid_ok_clear.
Qed.

Lemma getTile_clear (m : Map.t) (x y : Z) (tile : Tile.t) :
  Map.getTile (Map.clear m) x y = Some tile -> tile = canonical_tile Wall.
Proof.
  unfold Map.getTile, Map.clear. simpl.
  destruct ((0 <=? x) && (0 <=? y)); [|done].
  change (map (map (fun _ => Tile.make Wall "#"%char false)) (Map.m_tiles m))
    with (map (fun _ : Tile.t => Tile.make Wall "#"%char false)
            <$> Map.m_tiles m).
  rewrite list_lookup_fmap.
  destruct (Map.m_tiles m !! Z.to_nat y) as [row|]; [|done]. simpl.
  change (map (fun _ : Tile.t => Tile.make Wall "#"%char false) row)
    with ((fun _ : Tile.t => Tile.make Wall "#"%char false) <$> row).
  rewrite list_lookup_fmap.
  destruct (row !! Z.to_nat x); [|done]. by intros [= <-].
Qed.

Lemma built_tiles_canonical (m : Map.t) : built m -> tiles_canonical m.
Proof.
  induction 1 as [w h|x y ty m Hb IH|pos m _ IH|m _ IH]; intros a b tile.
  - rewrite getTile_new. destruct (Map.isValidPosition _ a b); [|done].
    by intros [= <-].
  - rewrite getTile_setTile by by apply built_grid_ok.
    case_decide; [|apply IH]. intros [= <-]. by destruct ty.
  - apply IH.
  - intros Ht. by rewrite (getTile_clear _ _ _ _ Ht).
Qed.

Lemma grid_ok_in_range (m : Map.t) (x y : Z) :
  grid_ok m ->
  Map.isValidPosition m x y = true <-> is_Some (Map.getTile m x y).
Proof.
  intros [Hh Hw]. unfold Map.isValidPosition, Map.getTile.
  rewrite !andb_true_iff, !Z.leb_le, !Z.ltb_lt. split.
  - intros [[[Hx0 Hx1] Hy0] Hy1].
    destruct (Z.leb_spec 0 x) as [_|]; [|lia].
    destruct (Z.leb_spec 0 y) as [_|]; [|lia]. simpl.
    destruct (lookup_lt_is_Some_2 (Map.m_tiles m) (Z.to_nat y)) as [row Hrow];
      [lia|].
    rewrite Hrow. simpl. apply lookup_lt_is_Some_2.
    rewrite (Hw _ _ Hrow). lia.
  - destruct (Z.leb_spec 0 x) as [Hx0|]; [|by intros [? [=]]].
    destruct (Z.leb_spec 0 y) as [Hy0|]; [|by intros [? [=]]]. simpl.
    destruct (Map.m_tiles m !! Z.to_nat y) as [row|] eqn:Hrow;
      [|by intros [? [=]]].
    simpl. intros Hsome. apply lookup_lt_is_Some_1 in Hsome.
    apply lookup_lt_Some in Hrow as Hylt.
    rewrite (Hw _ _ Hrow) in Hsome. lia.
Qed.

(** X4: on every map the code can build, a position is valid exactly when
    [m_tiles[y][x]] is in range, so [isWalkable] never reads out of range;
    every tile carries the symbol and the walkable flag of its type; and a
    cell is walkable exactly when it is on the grid and not a wall. *)
Theorem built_map_is_sound (m : Map.t) (x y : Z) :
  built m ->
  (Map.isValidPosition m x y = true <-> is_Some (Map.getTile m x y))
  /\ (forall tile, Map.getTile m x y = Some tile ->
                   tile = canonical_tile (Tile.type tile))
  /\ (Map.isWalkable m x y = true
      <-> exists tile, Map.getTile m x y = Some tile
                       /\ Tile.type tile <> Wall).
Proof.
  intros Hb. pose proof (built_grid_ok m Hb) as Hok.
  pose proof (built_tiles_canonical m Hb) as Hcan.
  split; [by apply grid_ok_in_range|]. split; [apply Hcan|].
  unfold Map.isWalkable.
  destruct (Map.isValidPosition m x y) eqn:Hv; simpl.
  - apply (grid_ok_in_range m x y Hok) in Hv as [tile Ht]. rewrite Ht. simpl.
    rewrite (Hcan _ _ _ Ht). split.
    + intros Hw. exists (canonical_tile (Tile.type tile)).
      split; [done|]. by destruct (Tile.type tile).
    + intros (t & [= <-] & Hty). by destruct (Tile.type tile).
  - split; [done|]. intros (tile & Ht & _).
    assert (Map.isValidPosition m x y = true) as Hv'
      by (apply grid_ok_in_range; eauto).
    congruence.
Qed.

(** X5: [setTile] on a map the code can build.  On the grid the cell
    written reads back as the tile of the type, off the grid the map is
    left as it was; every other cell reads as before; and of two writes to
    one cell only the second shows. *)
Theorem setTile_then_getTile (x y : Z) (ty : TileType) (m : Map.t) :
  built m ->
  (Map.isValidPosition m x y = true ->
   Map.getTile (Map.setTile x y ty m) x y = Some (canonical_tile ty))
  /\ (Map.isValidPosition m x y = false -> Map.setTile x y ty m = m)
  /\ (forall x' y', ~ (x' = x /\ y' = y) ->
        Map.getTile (Map.setTile x y ty m) x' y' = Map.getTile m x' y')
  /\ (forall ty0, Map.setTile x y ty (Map.setTile x y ty0 m)
                  = Map.setTile x y ty m).
Proof.
  intros Hb. pose proof (built_grid_ok m Hb) as Hok. split; [|split; [|split]].
  - intros Hv. rewrite getTile_setTile by done. by rewrite decide_True.
  - intros Hv. unfold Map.setTile. by rewrite Hv.
  - intros x' y' Hne. rewrite getTile_setTile by done.
    rewrite decide_False; [done|]. intros (? & ? & _). by apply Hne.
  - intros ty0. unfold Map.setTile at 1 3.
    rewrite setTile_valid.
    destruct (Map.isValidPosition m x y) eqn:Hv; simpl;
      [|unfold Map.setTile; by rewrite Hv].
    unfold Map.setTile. rewrite Hv. simpl. unfold Map.set_tiles. simpl.
    f_equal. rewrite list_alter_alter_eq. apply list_alter_ext; [|done].
    intros row _. simpl. apply list_insert_insert_eq.
Qed.

Lemma map_const_replicate {A B : Type} (c : B) (l : list A) :
  map (fun _ => c) l = replicate (length l) c.
Proof. induction l as [|a l IH]; simpl; [done|]. by rewrite IH. Qed.

(** X6: [clear] on a map the code can build gives the map its constructor
    would give for the same dimensions: every cell a wall, no stairway
    recorded. *)
Theorem clear_is_new (m : Map.t) :
  built m -> Map.clear m = Map.new (Map.m_width m) (Map.m_height m).
Proof.
  intros Hb. destruct (built_grid_ok m Hb) as [Hh Hw].
  unfold Map.clear, Map.new. f_equal. rewrite <- Hh.
  assert (forall rows : list (list Tile.t),
            (forall i row, rows !! i = Some row ->
                           length row = Z.to_nat (Map.m_width m)) ->
            map (map (fun _ => Tile.make Wall "#"%char false)) rows
            = replicate (length rows)
                (replicate (Z.to_nat (Map.m_width m))
                   (Tile.make Wall "#"%char false))) as Hrows.
  { induction rows as [|row rows IH]; intros Hlen; simpl; [done|].
    rewrite map_const_replicate, (Hlen 0%nat row eq_refl).
    f_equal. apply IH. intros i r Hr. by apply (Hlen (S i)). }
  by apply Hrows.
Qed.
End GridFurther.

(** ** Corpses *)

Lemma reap_cons (e : Enemy.t) (es : list Enemy.t) :
  reap (e :: es) = if Enemy.isAlive e then e :: reap es else es.
Proof.
  unfold reap. cbn [list_find].
  destruct (Enemy.isAlive e) eqn:He.
  - rewrite decide_False by done.
    destruct (list_find _ es) as [[i x]|]; done.
  - by rewrite decide_True.
Qed.

Lemma alive_ones_reap (es : list Enemy.t) : alive_ones (reap es) = alive_ones es.
Proof.
  unfold alive_ones. induction es as [|e es IH]; [done|].
  rewrite reap_cons. destruct (Enemy.isAlive e) eqn:He.
  - rewrite !filter_cons_True by done. by rewrite IH.
  - rewrite filter_cons_False; [done|]. by rewrite He.
Qed.

Lemma reap_all_alive (es : list Enemy.t) :
  alive_ones es = es -> reap es = es.
Proof.
  unfold alive_ones. induction es as [|e es IH]; [done|].
  rewrite reap_cons. destruct (Enemy.isAlive e) eqn:He.
  - rewrite filter_cons_True by done. intros [= Heq]. by rewrite IH.
  - rewrite filter_cons_False by (by rewrite He). intros Heq.
    pose proof (length_filter (fun e => Enemy.isAlive e = true) es) as Hlen.
    rewrite Heq in Hlen. simpl in Hlen. lia.
Qed.

Lemma length_reap (es : list Enemy.t) :
  alive_ones es <> es -> S (length (reap es)) = length es.
Proof.
  unfold alive_ones. induction es as [|e es IH]; [done|].
  rewrite reap_cons. destruct (Enemy.isAlive e) eqn:He; [|done].
  rewrite filter_cons_True by done. intros Hne. simpl. f_equal.
  apply IH. congruence.
Qed.

Lemma iter_reap (n : nat) (es : list Enemy.t) :
  (length es <= n + length (alive_ones es))%nat ->
  Nat.iter n reap es = alive_ones es.
Proof.
  revert es. induction n as [|n IH]; intros es Hn.
  - simpl in *. unfold alive_ones in *.
    pose proof (length_filter (fun e => Enemy.isAlive e = true) es) as Hle.
    destruct (decide (filter (fun e => Enemy.isAlive e = true) es = es))
      as [Heq|Hne]; [done|].
    exfalso.
    assert (length (filter (fun e => Enemy.isAlive e = true) es) < length es)%nat;
      [|lia].
    clear Hn Hle. induction es as [|e es IHes]; [done|].
    destruct (Enemy.isAlive e) eqn:He.
    + rewrite filter_cons_True in * by done. simpl.
      apply -> Nat.succ_lt_mono. apply IHes. congruence.
    + rewrite filter_cons_False by (by rewrite He). simpl.
      pose proof (length_filter (fun e => Enemy.isAlive e = true) es). lia.
  - rewrite Nat.iter_succ_r.
    destruct (decide (alive_ones es = es)) as [Heq|Hne].
    + rewrite (reap_all_alive es Heq). apply IH. rewrite Heq. lia.
    + rewrite <- (alive_ones_reap es). apply IH.
      rewrite alive_ones_reap. pose proof (length_reap es Hne). lia.
Qed.

Lemma find_alive_reap (pos : Position) (es : list Enemy.t) :
  snd <$> list_find (fun e => Enemy.pos e = pos /\ Enemy.isAlive e = true)
            (reap es)
  = snd <$> list_find (fun e => Enemy.pos e = pos /\ Enemy.isAlive e = true) es.
Proof.
  induction es as [|e es IH]; [done|].
  rewrite reap_cons. destruct (Enemy.isAlive e) eqn:He.
  - cbn [list_find]. case_decide; [done|].
    rewrite <- !option_fmap_compose.
    etrans; [|etrans; [exact IH|]]; by destruct (list_find _ _) as [[? ?]|].
  - cbn [list_find]. rewrite decide_False by (intros [_ ?]; congruence).
    rewrite <- option_fmap_compose. by destruct (list_find _ _) as [[? ?]|].
Qed.

Lemma reap_kill (es : list Enemy.t) (i : nat) (e' : Enemy.t) :
  alive_ones es = es -> (i < length es)%nat -> Enemy.isAlive e' = false ->
  reap (<[i := e']> es) = delete i es.
Proof.
  unfold alive_ones. revert i. induction es as [|e es IH]; intros i Hall Hi He';
    [simpl in Hi; lia|].
  destruct (Enemy.isAlive e) eqn:He.
  - rewrite filter_cons_True in Hall by done. injection Hall as Hall.
    destruct i as [|i]; simpl.
    + rewrite reap_cons. by rewrite He'.
    + rewrite reap_cons, He. f_equal. apply IH; [done|simpl in Hi; lia|done].
  - exfalso. rewrite filter_cons_False in Hall by (by rewrite He).
    pose proof (length_filter (fun e => Enemy.isAlive e = true) es) as Hlen.
    rewrite Hall in Hlen. simpl in Hlen. lia.
Qed.

Section Corpses.
Context `{Constants} {R : Type} `{!RandomSource R}.

Lemma update_enemies (g : Game.t R) :
  Game.update g = Game.set_enemies (reap (Game.m_enemies g)) g.
Proof.
  unfold Game.update, Game.removeDeadEnemies, reap.
  destruct (list_find _ _) as [[i e]|]; [done|]. by destruct g.
Qed.

Lemma reap_first_corpse (pre rest : list Enemy.t) (c : Enemy.t) :
  Forall (fun e => Enemy.isAlive e = true) pre ->
  Enemy.isAlive c = false ->
  reap (pre ++ c :: rest) = pre ++ rest.
Proof.
  intros Hpre Hc. induction Hpre as [|e pre He _ IH]; simpl.
  - by rewrite reap_cons, Hc.
  - by rewrite reap_cons, He, IH.
Qed.

Lemma reap_no_corpse (es : list Enemy.t) :
  Forall (fun e => Enemy.isAlive e = true) es -> reap es = es.
Proof.
  induction 1 as [|e es He _ IH]; [done|]. by rewrite reap_cons, He, IH.
Qed.

(** X7: one [update] erases the first enemy of the list that is not alive
    and changes nothing else of the session: with the enemies
    [pre ++ c :: rest], those of [pre] alive and [c] not, the enemies
    afterwards are [pre ++ rest], whatever [rest] holds; with every enemy
    alive the session stays as it is.  So the live enemies stay, in their
    order, the list gets shorter by one if it held a corpse and not at all
    otherwise, and after as many updates as there are corpses, or more,
    exactly the live enemies are left. *)
Theorem update_reaps_one_corpse (g : Game.t R) (n : nat) :
  (forall pre c rest,
      Game.m_enemies g = pre ++ c :: rest ->
      Forall (fun e => Enemy.isAlive e = true) pre ->
      Enemy.isAlive c = false ->
      Game.update g = Game.set_enemies (pre ++ rest) g)
  /\ (Forall (fun e => Enemy.isAlive e = true) (Game.m_enemies g) ->
      Game.update g = g)
  /\ alive_ones (Game.m_enemies (Game.update g)) = alive_ones (Game.m_enemies g)
  /\ length (Game.m_enemies (Game.update g))
     = (length (Game.m_enemies g)
        - if decide (alive_ones (Game.m_enemies g) = Game.m_enemies g)
          then 0 else 1)%nat
  /\ ((length (Game.m_enemies g)
       <= n + length (alive_ones (Game.m_enemies g)))%nat ->
      Game.m_enemies (Nat.iter n Game.update g)
      = alive_ones (Game.m_enemies g)).
Proof.
  split.
  { intros pre c rest Hes Hpre Hc.
    by rewrite update_enemies, Hes, reap_first_corpse. }
  split.
  { intros Hall. rewrite update_enemies, reap_no_corpse by done.
    by destruct g. }
  rewrite update_enemies. simpl. split; [apply alive_ones_reap|]. split.
  - case_decide as Hall.
    + rewrite (reap_all_alive _ Hall). lia.
    + pose proof (length_reap _ Hall). lia.
  - intros Hn. rewrite <- (iter_reap n _ Hn). clear Hn.
    induction n as [|n IH]; [done|].
    simpl. rewrite update_enemies. simpl. by rewrite IH.
Qed.

Lemma enemy_at_find (pos : Position) (g : Game.t R) :
  enemy_at pos g
  = snd <$> list_find (fun e => Enemy.pos e = pos /\ Enemy.isAlive e = true)
              (Game.m_enemies g).
Proof.
  unfold enemy_at, Game.getEnemyAt.
  destruct (list_find _ _) as [[i e]|] eqn:Hfind; [|done]. simpl.
  by apply list_find_Some in Hfind as (-> & _).
Qed.

(** X8: erasing a corpse does not change whom [getEnemyAt] finds: on every
    position the enemy pointed at is the same before and after [update]. *)
Theorem update_keeps_getEnemyAt (pos : Position) (g : Game.t R) :
  enemy_at pos (Game.update g) = enemy_at pos g.
Proof.
  rewrite !enemy_at_find, update_enemies. simpl. apply find_alive_reap.
Qed.

(** X9: when every enemy is alive and the player's hit takes the enemy
    fought to 0 or below, the next [update] erases exactly that enemy. *)
Theorem kill_then_update_erases_it
    (g : Game.t R) (i : nat) (p : Player.t) (e : Enemy.t) :
  Game.m_player g = Some p ->
  Game.m_enemies g !! i = Some e ->
  alive_ones (Game.m_enemies g) = Game.m_enemies g ->
  in_int (Enemy.health e - Player.attackPower p) ->
  Enemy.health e <= Player.attackPower p ->
  exists g',
    Game.handleCombat i g = Some g'
    /\ Game.m_enemies (Game.update g') = delete i (Game.m_enemies g).
Proof.
  intros Hp He Hall Hint Hkill.
  unfold Game.handleCombat. rewrite Hp, He. simpl.
  assert (Enemy.isAlive (Enemy.takeDamage (Player.attackPower p) e) = false)
    as Hdead.
  { unfold Enemy.isAlive, Enemy.takeDamage. simpl.
    rewrite int_sub_exact by done. apply Z.ltb_ge. lia. }
  rewrite Hdead. eexists. split; [done|].
  rewrite update_enemies. simpl.
  apply reap_kill; [done|by eapply lookup_lt_Some|done].
Qed.
End Corpses.

(** ** What every reachable session satisfies *)

Section SpawnIds.
Context `{Constants} {R : Type} `{!RandomSource R}.

(** The ids [spawnEnemies] hands out: the counter, the counter plus one,
    and so on. *)
Lemma spawnEnemies_loop_ids (n : nat) (g : Game.t R) :
  is_Some (Game.m_generator g) ->
  exists g' new,
    Game.spawnEnemies_loop n g = Some g'
    /\ Game.m_enemies g' = Game.m_enemies g ++ new
    /\ Enemy.id <$> new
       = (fun k => (Game.m_nextEntityId g + N.of_nat k)%N) <$> seq 0 n
    /\ Game.m_nextEntityId g' = (Game.m_nextEntityId g + N.of_nat n)%N.
Proof.
  revert g. induction n as [|n IH]; intros g [gen Hgen].
  - exists g, []. simpl. rewrite app_nil_r.
    repeat split; try done. cbn. lia.
  - simpl. rewrite Hgen. simpl.
    destruct (uniform_int 1 _ _) as [x rng1].
    destruct (uniform_int 1 _ rng1) as [y rng2].
    pose proof (uniform_int_range 0 6 rng2 ltac:(lia)) as Hk.
    destruct (uniform_int 0 6 rng2) as [k rng3]. simpl in Hk.
    destruct (Z.leb_spec 0 k) as [_|]; [|lia].
    destruct (lookup_lt_is_Some_2
                [Goblin; Orc; Skeleton; Zombie; Rat; Spider; Dragon]
                (Z.to_nat k)) as [ty Hty]; [simpl; lia|].
    rewrite Hty. simpl.
    edestruct IH as (g' & new & Hrun & Hen & Hids & Hnext);
      [|rewrite Hrun]; [by eexists|].
    simpl in Hen, Hids, Hnext. eexists g', (_ :: new). split; [done|].
    split; [by rewrite Hen, <- app_assoc|]. split.
    + rewrite fmap_cons, Hids. cbn [seq fmap list_fmap]. f_equal.
      * destruct ty; simpl; lia.
      * rewrite <- seq_shift, <- list_fmap_compose.
        apply list_fmap_ext. intros i j _. simpl. lia.
    + rewrite Hnext. lia.
Qed.
End SpawnIds.

Section Reachable.
Context `{Constants} {R : Type} `{!RandomSource R}.

#[local] Arguments Game.spawnEnemies_loop : simpl never.
#[local] Arguments Game.spawnItems_loop : simpl never.

Lemma addMessage_length (msg : string) (g : Game.t R) :
  (length (Game.m_messages g) <= MAX_MESSAGES)%nat ->
  (length (Game.m_messages (Game.addMessage msg g)) <= MAX_MESSAGES)%nat.
Proof.
  intros Hlen. rewrite addMessage_messages, length_newest by done. lia.
Qed.

Lemma built_fill_row (xs : list Z) (y : Z) (ty : TileType) (m : Map.t) :
  built m -> built (foldl (fun acc x => Map.setTile x y ty acc) m xs).
Proof.
  revert m. induction xs as [|x xs IH]; intros m Hb; [done|].
  cbn [foldl]. apply IH. by constructor.
Qed.

Lemma generate_built (w h : Z) (gen : DungeonGenerator.t R) :
  let m := (DungeonGenerator.generate w h gen).1 in
  built m /\ Map.m_width m = w /\ Map.m_height m = h.
Proof.
  unfold DungeonGenerator.generate, for_range.
  set (xs := seqZ _ _). set (ys := seqZ _ _).
  assert (forall m0 : Map.t,
            built m0 ->
            let m1 := foldl (fun acc y =>
                               foldl (fun acc x => Map.setTile x y Floor acc)
                                     acc xs) m0 ys in
            built m1 /\ Map.m_width m1 = Map.m_width m0
            /\ Map.m_height m1 = Map.m_height m0) as Hrect.
  { clearbody xs ys. induction ys as [|y ys IH]; intros m0 Hb; cbn [foldl];
      [done|].
    cbv zeta. destruct (fill_row_spec xs y Floor m0) as (_ & (Hw & Hh & _) & _);
      [by apply built_grid_ok|].
    destruct (IH _ (built_fill_row xs y Floor m0 Hb)) as (Hb' & Hw' & Hh').
    split; [done|]. split; congruence. }
  destruct (Hrect (Map.new w h) (built_new w h)) as (Hb & Hw & Hh).
  destruct (uniform_int _ _ _) as [sx rng1].
  destruct (uniform_int _ _ rng1) as [sy rng2]. cbn [fst snd].
  match goal with
  | |- context [Map.setTile sx sy StairsDown ?m] =>
      pose proof (setTile_dims sx sy StairsDown m) as (Hw1 & Hh1 & Hs1)
  end.
  split; [by repeat constructor|]. simpl in *. split; congruence.
Qed.
Lemma reap_elem_of (e : Enemy.t) (es : list Enemy.t) : e ∈ reap es -> e ∈ es.
Proof.
  induction es as [|e0 es IH]; [done|]. rewrite reap_cons.
  destruct (Enemy.isAlive e0); rewrite ?elem_of_cons; intuition.
Qed.

Lemma reap_NoDup_ids (es : list Enemy.t) :
  NoDup (Enemy.id <$> es) -> NoDup (Enemy.id <$> reap es).
Proof.
  induction es as [|e0 es IH]; [done|]. rewrite reap_cons, fmap_cons.
  intros [Hnot Hnd]%NoDup_cons. destruct (Enemy.isAlive e0); [|done].
  rewrite fmap_cons. apply NoDup_cons. split; [|by apply IH].
  intros (e & He & Hin%reap_elem_of)%list_elem_of_fmap. apply Hnot.
  apply list_elem_of_fmap. eauto.
Qed.

(** Ids below the counter and pairwise distinct stay so when enemies with
    the next [n] ids are appended. *)
Lemma ids_after_spawn (next : N) (es new : list Enemy.t) (n : nat) :
  Forall (fun e => (Enemy.id e < next)%N) es ->
  NoDup (Enemy.id <$> es) ->
  Enemy.id <$> new = (fun k => (next + N.of_nat k)%N) <$> seq 0 n ->
  Forall (fun e => (Enemy.id e < next + N.of_nat n)%N) (es ++ new)
  /\ NoDup (Enemy.id <$> es ++ new)
  /\ (forall i, (i < next)%N -> i ∉ Enemy.id <$> new).
Proof.
  intros Hall Hnd Hids.
  assert (forall i, i ∈ Enemy.id <$> new ->
                    (next <= i < next + N.of_nat n)%N) as Hrange.
  { intros i. rewrite Hids. intros (k & -> & Hk%elem_of_seq)%list_elem_of_fmap.
    lia. }
  split; [|split].
  - apply Forall_app. split.
    + eapply Forall_impl; [done|]. intros e. simpl. lia.
    + apply Forall_forall. intros e He.
      destruct (Hrange (Enemy.id e)); [|done]. by apply list_elem_of_fmap_2.
  - rewrite fmap_app. apply NoDup_app. split; [done|]. split.
    + intros i (e & -> & He)%list_elem_of_fmap Hin.
      rewrite Forall_forall in Hall. specialize (Hall e He).
      specialize (Hrange _ Hin). lia.
    + rewrite Hids. apply NoDup_fmap_2; [|apply NoDup_seq].
      intros a b. lia.
  - intros i Hi Hin. specialize (Hrange _ Hin). lia.
Qed.

Lemma session_inv_new : session_inv (Game.new (R := R)).
Proof.
  unfold session_inv, MAX_MESSAGES. simpl. split; [lia|]. split; [done|].
  split; [by intros [? [=]]|]. split; [done|]. split; [constructor|done].
Qed.

Lemma session_inv_update (g : Game.t R) :
  session_inv g -> session_inv (Game.update g).
Proof.
  intros (Hlog & Hmap & Hsome & Hlt & Hnd & Hpl). rewrite update_enemies.
  unfold session_inv. simpl. split; [done|]. split; [done|]. split; [done|].
  split; [|split].
  - rewrite Forall_forall in *. intros e He. by apply Hlt, reap_elem_of.
  - by apply reap_NoDup_ids.
  - intros p Hp. destruct (Hpl p Hp) as [Hid Hnot]. split; [done|].
    intros (e & He & Hin%reap_elem_of)%list_elem_of_fmap. apply Hnot.
    apply list_elem_of_fmap. eauto.
Qed.

Lemma handleCombat_log (i : nat) (g g' : Game.t R) :
  (length (Game.m_messages g) <= MAX_MESSAGES)%nat ->
  Game.handleCombat i g = Some g' ->
  (length (Game.m_messages g') <= MAX_MESSAGES)%nat.
Proof.
  intros Hlog. unfold Game.handleCombat.
  destruct (Game.m_player g) as [p|]; [|done].
  destruct (Game.m_enemies g !! i) as [e|]; [|done].
  cbn [mbind option_bind]. intros Hrun.
  repeat match type of Hrun with
         | context [if ?b then _ else _] => destruct b
         end;
    injection Hrun as <-;
    repeat first [ apply addMessage_length
                 | progress cbn [Game.m_messages Game.set_player
                                   Game.set_state Game.set_enemies] ];
    done.
Qed.

Lemma session_inv_handleCombat (i : nat) (g g' : Game.t R) :
  session_inv g -> Game.handleCombat i g = Some g' -> session_inv g'.
Proof.
  intros (Hlog & Hmap & Hsome & Hlt & Hnd & Hpl) Hrun.
  pose proof (handleCombat_log i g g' Hlog Hrun) as Hlog'.
  revert Hrun. unfold Game.handleCombat.
  destruct (Game.m_player g) as [p|] eqn:Hp; [|done].
  destruct (Game.m_enemies g !! i) as [e|] eqn:He; [|done]. simpl.
  destruct (Hpl p eq_refl) as [Hpid Hpnot].
  assert (Enemy.id <$> <[i := Enemy.takeDamage (Player.attackPower p) e]>
                         (Game.m_enemies g)
          = Enemy.id <$> Game.m_enemies g) as Hids.
  { rewrite list_fmap_insert. apply list_insert_id.
    by rewrite list_lookup_fmap, He. }
  assert (Forall (fun e => (Enemy.id e < Game.m_nextEntityId g)%N)
            (<[i := Enemy.takeDamage (Player.attackPower p) e]>
               (Game.m_enemies g))) as Hlt'.
  { apply Forall_insert; [done|]. rewrite Forall_forall in Hlt.
    apply (Hlt e). by eapply list_elem_of_lookup_2. }
  intros Hrun.
  repeat match type of Hrun with
         | context [if ?b then _ else _] => destruct b
         end;
    injection Hrun as <-; (split; [exact Hlog'|]); clear Hlog';
    simpl; rewrite Hids;
    (split; [done|]); (split; [intros Hm; split; [by eexists|by apply Hsome]|]);
    (split; [done|]); (split; [done|]); by intros ? [= <-].
Qed.
Lemma session_inv_same (g g' : Game.t R) :
  session_inv g ->
  (length (Game.m_messages g') <= MAX_MESSAGES)%nat ->
  Game.m_map g' = Game.m_map g ->
  Game.m_player g' = Game.m_player g ->
  (is_Some (Game.m_generator g) -> is_Some (Game.m_generator g')) ->
  Game.m_nextEntityId g' = Game.m_nextEntityId g ->
  Game.m_enemies g' = Game.m_enemies g ->
  session_inv g'.
Proof.
  intros (Hlog & Hmap & Hsome & Hlt & Hnd & Hpl) Hlog' Hm Hp Hg Hn He.
  unfold session_inv. rewrite Hm, Hp, Hn, He.
  split; [done|]. split; [done|]. split; [|done].
  intros Hs. destruct (Hsome Hs). split; [done|]. by apply Hg.
Qed.

Lemma session_inv_addMessage (msg : string) (g : Game.t R) :
  session_inv g -> session_inv (Game.addMessage msg g).
Proof.
  intros Hinv. apply (session_inv_same g); try done.
  apply addMessage_length, Hinv.
Qed.

Lemma session_inv_spawnEnemies (n : nat) (g g' : Game.t R) :
  session_inv g -> Game.spawnEnemies_loop n g = Some g' -> session_inv g'.
Proof.
  intros (Hlog & Hmap & Hsome & Hlt & Hnd & Hpl) Hrun.
  destruct n as [|n]; [injection Hrun as <-; done|].
  assert (is_Some (Game.m_generator g)) as Hgen.
  { unfold Game.spawnEnemies_loop in Hrun.
    destruct (Game.m_generator g); [by eexists|done]. }
  destruct (spawnEnemies_loop_spec (S n) g Hgen)
    as (g1 & new & Hrun1 & Hen & _ & _ & Hg1 & _ & Hp1 & Hm1 & _ & _ & Hmsg1).
  destruct (spawnEnemies_loop_ids (S n) g Hgen)
    as (g2 & new2 & Hrun2 & Hen2 & Hids & Hnext).
  rewrite Hrun in Hrun1, Hrun2. injection Hrun1 as <-. injection Hrun2 as <-.
  rewrite Hen in Hen2. apply app_inv_head in Hen2 as <-.
  destruct (ids_after_spawn _ _ _ _ Hlt Hnd Hids) as (Hlt' & Hnd' & Hfresh).
  unfold session_inv. rewrite Hmsg1, Hm1, Hp1, Hnext, Hen.
  split; [done|]. split; [done|].
  split; [intros Hs; split; [by apply Hsome|done]|].
  split; [done|]. split; [done|].
  intros p Hp. destruct (Hpl p Hp) as [Hid Hnot]. split; [lia|].
  rewrite fmap_app. intros [Hin|Hin]%elem_of_app; [done|].
  by apply (Hfresh _ Hid).
Qed.

Lemma session_inv_spawnItems (n : nat) (g g' : Game.t R) :
  session_inv g -> Game.spawnItems_loop n g = Some g' -> session_inv g'.
Proof.
  intros Hinv Hrun.
  destruct n as [|n]; [injection Hrun as <-; done|].
  assert (is_Some (Game.m_generator g)) as Hgen.
  { unfold Game.spawnItems_loop in Hrun.
    destruct (Game.m_generator g); [by eexists|done]. }
  destruct (spawnItems_loop_spec (S n) g Hgen)
    as (g1 & Hrun1 & _ & Hg1 & Hn1 & Hp1 & Hm1 & _ & He1 & Hmsg1).
  rewrite Hrun in Hrun1. injection Hrun1 as <-.
  apply (session_inv_same g); try done. rewrite Hmsg1. apply Hinv.
Qed.

(** A session given a new player with the next id and a newly generated
    map, as [newGame], [loadGame] and [nextLevel] do before they spawn. *)
Lemma session_inv_fresh_level
    (g : Game.t R) (p : Player.t) (gen gen' : DungeonGenerator.t R)
    (es : list Enemy.t) (next : EntityId) :
  session_inv g ->
  (Player.id p < next)%N ->
  (Game.m_nextEntityId g <= next)%N ->
  (forall e, e ∈ es -> e ∈ Game.m_enemies g) ->
  NoDup (Enemy.id <$> es) ->
  es = [] \/ (Game.m_nextEntityId g <= Player.id p)%N ->
  session_inv
    (Game.make (Game.m_state g) next (Some gen')
       (Some p)
       (Some (DungeonGenerator.generate MAP_WIDTH MAP_HEIGHT gen).1)
       es (Game.m_floorItems g) (Game.m_messages g)).
Proof.
  intros (Hlog & Hmap & Hsome & Hlt & Hnd & Hpl) Hp Hnext Hsub Hnd' Hcase.
  unfold session_inv. simpl. split; [done|]. split.
  { intros m [= <-]. apply generate_built. }
  split; [by split; eexists|]. split.
  { apply Forall_forall. intros e He. rewrite Forall_forall in Hlt.
    specialize (Hlt e (Hsub e He)). lia. }
  split; [done|]. intros q [= <-]. split; [done|].
  intros (e & Hid & He)%list_elem_of_fmap.
  rewrite Forall_forall in Hlt. pose proof (Hlt e (Hsub e He)) as Hlt_e.
  destruct Hcase as [->|Hfresh]; [by apply elem_of_nil in He|lia].
Qed.
Lemma session_inv_nextLevel (g g' : Game.t R) :
  session_inv g -> Game.nextLevel g = Some g' -> session_inv g'.
Proof.
  intros Hinv. unfold Game.nextLevel, Game.spawnEnemies, Game.spawnItems.
  destruct (Game.m_player g) as [p|] eqn:Hp; [|done]. simpl.
  destruct (Game.m_generator g) as [gen|] eqn:Hgen; [|done]. simpl.
  destruct (DungeonGenerator.generate MAP_WIDTH MAP_HEIGHT gen)
    as [map gen'] eqn:Hmap.
  replace map with (DungeonGenerator.generate MAP_WIDTH MAP_HEIGHT gen).1
    by (by rewrite Hmap).
  pose proof (session_inv_fresh_level g (descended p) gen gen' []
                (Game.m_nextEntityId g) Hinv) as Hlevel.
  destruct (Game.spawnEnemies_loop _ _) as [g1|] eqn:Hrun1; [|done]. simpl.
  destruct (Game.spawnItems_loop _ g1) as [g2|] eqn:Hrun2; [|done]. simpl.
  intros [= <-]. apply session_inv_addMessage.
  specialize (Hlevel
                ltac:(destruct Hinv as (_ & _ & _ & _ & _ & Hpl);
                      by apply (Hpl p))
                ltac:(lia) ltac:(by intros e ?%elem_of_nil)
                ltac:(constructor) ltac:(by left)).
  exact (session_inv_spawnItems _ _ _
           (session_inv_spawnEnemies _ _ _ Hlevel Hrun1) Hrun2).
Qed.

Lemma session_inv_newGame (name : string) (g g' : Game.t R) :
  session_inv g -> Game.newGame name g = Some g' -> session_inv g'.
Proof.
  intros Hinv. unfold Game.newGame, Game.spawnEnemies, Game.spawnItems. simpl.
  destruct (Game.m_generator g) as [gen|] eqn:Hgen; [|done]. simpl.
  destruct (DungeonGenerator.generate MAP_WIDTH MAP_HEIGHT gen)
    as [map gen'] eqn:Hmap.
  replace map with (DungeonGenerator.generate MAP_WIDTH MAP_HEIGHT gen).1
    by (by rewrite Hmap).
  pose proof (session_inv_fresh_level g
                (Player.set_pos Game.spawn_offset
                   (Player.new (Game.m_nextEntityId g) name (5, 5)))
                gen gen' (Game.m_enemies g)
                (Game.m_nextEntityId g + 1)%N Hinv) as Hlevel.
  destruct (Game.spawnEnemies_loop _ _) as [g1|] eqn:Hrun1; [|done]. simpl.
  destruct (Game.spawnItems_loop _ g1) as [g2|] eqn:Hrun2; [|done]. simpl.
  intros [= <-].
  specialize (Hlevel ltac:(simpl; lia) ltac:(lia) ltac:(done)
                ltac:(apply Hinv) ltac:(right; simpl; lia)).
  pose proof (session_inv_spawnItems _ _ _
                (session_inv_spawnEnemies _ _ _ Hlevel Hrun1) Hrun2) as Hinv2.
  apply session_inv_addMessage.
  apply (session_inv_same g2); try done. unfold MAX_MESSAGES. simpl. lia.
Qed.

Lemma session_inv_loadGame
    (filename : string) (fs : FileSystem) (b : bool) (g g' : Game.t R) :
  session_inv g -> Game.loadGame filename fs g = Some (b, g') ->
  session_inv g'.
Proof.
  intros Hinv. unfold Game.loadGame, Game.spawnEnemies.
  destruct (files fs !! filename) as [content|]; [|by intros [= <- <-]].
  destruct (IStream.getline _ _) as [name file0].
  destruct (IStream.extract_int file0) as [hp file1].
  destruct (IStream.extract_int file1) as [maxHp file2].
  destruct (IStream.extract_int file2) as [atk file3].
  destruct (IStream.extract_int file3) as [def file4].
  destruct (IStream.extract_int file4) as [lvl file5].
  destruct (IStream.extract_int file5) as [exp file6].
  destruct (IStream.extract_int file6) as [gold file7].
  destruct (IStream.extract_int file7) as [dlvl file8].
  destruct hp as [hp|]; [|done]. destruct maxHp as [maxHp|]; [|done].
  destruct atk as [atk|]; [|done]. destruct def as [def|]; [|done].
  destruct lvl as [lvl|]; [|done]. destruct exp as [exp|]; [|done].
  destruct gold as [gold|]; [|done]. destruct dlvl as [dlvl|]; [|done].
  simpl.
  destruct (Game.m_generator g) as [gen|] eqn:Hgen; [|done]. simpl.
  destruct (DungeonGenerator.generate MAP_WIDTH MAP_HEIGHT gen)
    as [map gen'] eqn:Hmap.
  replace map with (DungeonGenerator.generate MAP_WIDTH MAP_HEIGHT gen).1
    by (by rewrite Hmap).
  pose proof (session_inv_fresh_level g
                (Player.make (Game.m_nextEntityId g) name (5, 5)
                   hp maxHp atk def lvl exp gold dlvl [])
                gen gen' (Game.m_enemies g)
                (Game.m_nextEntityId g + 1)%N Hinv) as Hlevel.
  destruct (Game.spawnEnemies_loop _ _) as [g1|] eqn:Hrun1; [|done]. simpl.
  intros [= <- <-].
  specialize (Hlevel ltac:(simpl; lia) ltac:(lia) ltac:(done)
                ltac:(apply Hinv) ltac:(right; simpl; lia)).
  pose proof (session_inv_spawnEnemies _ _ _ Hlevel Hrun1) as Hinv1.
  apply (session_inv_same g1); try done. apply Hinv1.
Qed.

Lemma handleMovement_off_grid
    (dir : Direction) (g : Game.t R) (p : Player.t) (map : Map.t) :
  Game.m_player g = Some p ->
  Game.m_map g = Some map ->
  let dest := Player.pos (Player.move dir p).1 in
  Map.getTile map dest.1 dest.2 = None ->
  Game.handleMovement dir g = None.
Proof.
  intros Hp Hm dest Hnone. unfold Game.handleMovement. rewrite Hp, Hm. simpl.
  fold dest. destruct dest as [x y]. simpl in Hnone.
  unfold Map.isWalkable. rewrite Hnone. simpl.
  by destruct (negb (Map.isValidPosition map x y)).
Qed.

Lemma session_inv_handleMovement (dir : Direction) (g g' : Game.t R) :
  session_inv g -> Game.handleMovement dir g = Some g' -> session_inv g'.
Proof.
  intros Hinv Hrun.
  destruct (Game.m_player g) as [p|] eqn:Hp; cycle 1.
  { unfold Game.handleMovement in Hrun. rewrite Hp in Hrun.
    by injection Hrun as <-. }
  destruct (Game.m_map g) as [map|] eqn:Hm; cycle 1.
  { unfold Game.handleMovement in Hrun. rewrite Hp, Hm in Hrun.
    by injection Hrun as <-. }
  destruct (Map.getTile map (Player.pos (Player.move dir p).1).1
              (Player.pos (Player.move dir p).1).2) as [tile|] eqn:Ht; cycle 1.
  { by rewrite (handleMovement_off_grid dir g p map Hp Hm Ht) in Hrun. }
  rewrite (handleMovement_resolve dir g p map tile Hp Hm Ht) in Hrun.
  assert (session_inv (Game.set_player (Some (Player.move dir p).1) g))
    as Hinv1.
  { destruct Hinv as (Hlog & Hmap & Hsome & Hlt & Hnd & Hpl).
    destruct (Player_move_keeps dir p) as (_ & _ & Hid & _).
    unfold session_inv. simpl. split; [done|]. split; [done|].
    split; [intros Hs; split; [by eexists|by apply Hsome]|].
    split; [done|]. split; [done|]. intros q [= <-]. rewrite Hid.
    by apply Hpl. }
  destruct (match Game.getEnemyAt _ _ with
            | Some i => _
            | None => _
            end) as [g2|] eqn:Hfight; [|done].
  simpl in Hrun.
  assert (session_inv g2) as Hinv2.
  { destruct (Game.getEnemyAt _ _) as [i|].
    - by eapply session_inv_handleCombat.
    - by injection Hfight as <-. }
  destruct (decide (Tile.type tile = StairsDown)).
  - by eapply session_inv_nextLevel.
  - by injection Hrun as <-.
Qed.

Lemma session_inv_step (g g' : Game.t R) :
  session_inv g -> session_step g g' -> session_inv g'.
Proof.
  intros Hinv Hstep. destruct Hstep.
  - apply (session_inv_same g); try done; apply Hinv.
  - apply (session_inv_same g); try done. apply Hinv.
  - unfold session_inv, Game.shutdown, MAX_MESSAGES. simpl.
    split; [lia|]. split; [done|]. split; [by intros [? [=]]|].
    split; [done|]. split; [constructor|done].
  - by eapply session_inv_newGame.
  - by eapply session_inv_loadGame.
  - by apply session_inv_update.
  - by eapply session_inv_handleMovement.
Qed.

Lemma reachable_inv (g : Game.t R) : reachable g -> session_inv g.
Proof.
  unfold reachable. intros Hreach.
  apply (rtc_ind_r (R := session_step) (fun g => session_inv g) Game.new);
    [apply session_inv_new| |exact Hreach].
  intros y z _ Hstep IH. by eapply session_inv_step.
Qed.
(** X10: in every session reached from the constructor by the public
    operations, the message log holds at most five entries. *)
Theorem reachable_log_bounded (g : Game.t R) :
  reachable g -> (length (Game.m_messages g) <= 5)%nat.
Proof. intros Hr. apply (reachable_inv g Hr). Qed.

(** X11: in every reachable session the ids of the enemies are pairwise
    distinct, differ from the player's id, and all lie below the id
    counter. *)
Theorem reachable_ids_unique (g : Game.t R) :
  reachable g ->
  NoDup (Enemy.id <$> Game.m_enemies g)
  /\ Forall (fun e => (Enemy.id e < Game.m_nextEntityId g)%N) (Game.m_enemies g)
  /\ (forall p, Game.m_player g = Some p ->
        (Player.id p < Game.m_nextEntityId g)%N
        /\ Forall (fun e => Enemy.id e <> Player.id p) (Game.m_enemies g)).
Proof.
  intros Hr. destruct (reachable_inv g Hr) as (_ & _ & _ & Hlt & Hnd & Hpl).
  split; [done|]. split; [done|]. intros p Hp.
  destruct (Hpl p Hp) as [Hid Hnot]. split; [done|].
  apply Forall_forall. intros e He Heq. apply Hnot. rewrite <- Heq.
  by apply list_elem_of_fmap_2.
Qed.

(** X12: in a reachable session [handleMovement] dereferences no empty
    pointer and indexes [m_tiles] in range exactly when there is no
    player, or no map, or the cell moved onto lies within the fixed
    dimensions; off the grid [getTile] indexes [m_tiles] out of range.
    The amounts of an exchange or a descent on the way are computed with
    wrap-around here: whether they overflow is not part of this
    statement. *)
Theorem reachable_move_defined (dir : Direction) (g : Game.t R) :
  reachable g ->
  is_Some (Game.handleMovement dir g)
  <-> (forall p, Game.m_player g = Some p -> is_Some (Game.m_map g) ->
         let dest := Player.pos (Player.move dir p).1 in
         0 <= dest.1 < MAP_WIDTH /\ 0 <= dest.2 < MAP_HEIGHT).
Proof.
  intros Hr. destruct (reachable_inv g Hr) as (_ & Hmap & Hsome & _).
  destruct (Game.m_player g) as [p|] eqn:Hp; cycle 1.
  { unfold Game.handleMovement. rewrite Hp. split; [done|by eexists]. }
  destruct (Game.m_map g) as [map|] eqn:Hm; cycle 1.
  { unfold Game.handleMovement. rewrite Hp, Hm.
    split; [by intros _ ? _ [? [=]]|by eexists]. }
  destruct (Hmap map eq_refl) as (Hb & Hw & Hh).
  destruct (Hsome ltac:(by eexists)) as [_ [gen Hgen]].
  pose proof (grid_ok_in_range map
                (Player.pos (Player.move dir p).1).1
                (Player.pos (Player.move dir p).1).2
                (built_grid_ok map Hb)) as Hrange.
  unfold Map.isValidPosition in Hrange.
  rewrite !andb_true_iff, !Z.leb_le, !Z.ltb_lt, Hw, Hh in Hrange.
  split.
  - intros Hrun q [= <-] _. cbv zeta.
    destruct (Map.getTile map _ _) as [tile|] eqn:Ht.
    + destruct Hrange as [_ Hback]. specialize (Hback ltac:(by eexists)). lia.
    + rewrite (handleMovement_off_grid dir g p map Hp Hm Ht) in Hrun.
      by destruct Hrun.
  - intros Hon. specialize (Hon p eq_refl ltac:(by eexists)). cbv zeta in Hon.
    destruct Hrange as [[tile Ht] _]; [lia|].
    rewrite (handleMovement_resolve dir g p map tile Hp Hm Ht).
    destruct (arrival_frame (Player.pos (Player.move dir p).1)
                (Game.set_player (Some (Player.move dir p).1) g)
                (Player.move dir p).1 eq_refl)
      as (g2 & p2 & -> & Hp2 & _ & _ & Hgen2 & _).
    simpl. destruct (decide (Tile.type tile = StairsDown)); [|by eexists].
    destruct (nextLevel_spec g2 p2 gen Hp2) as (g' & -> & _);
      [by rewrite Hgen2|by eexists].
Qed.
End Reachable.

(** ** Where the enemies are put *)

Section SpawnPlaces.
Context `{Constants} {R : Type} `{!RandomSource R}.

Lemma spawnEnemies_loop_places (n : nat) (g : Game.t R) :
  is_Some (Game.m_generator g) ->
  1 <= int_sub MAP_WIDTH 2 -> 1 <= int_sub MAP_HEIGHT 2 ->
  exists g' new,
    Game.spawnEnemies_loop n g = Some g'
    /\ Game.m_enemies g' = Game.m_enemies g ++ new
    /\ Forall (fun e => 1 <= (Enemy.pos e).1 <= int_sub MAP_WIDTH 2
                        /\ 1 <= (Enemy.pos e).2 <= int_sub MAP_HEIGHT 2) new.
Proof.
  intros Hgen Hw Hh. revert g Hgen.
  induction n as [|n IH]; intros g [gen Hgen].
  - exists g, []. simpl. by rewrite app_nil_r.
  - simpl. rewrite Hgen. simpl.
    pose proof (uniform_int_range 1 (int_sub MAP_WIDTH 2)
                  (DungeonGenerator.m_rng gen) Hw) as Hx.
    destruct (uniform_int 1 _ _) as [x rng1].
    pose proof (uniform_int_range 1 (int_sub MAP_HEIGHT 2) rng1 Hh) as Hy.
    destruct (uniform_int 1 _ rng1) as [y rng2].
    pose proof (uniform_int_range 0 6 rng2 ltac:(lia)) as Hk.
    destruct (uniform_int 0 6 rng2) as [k rng3]. simpl in Hx, Hy, Hk.
    destruct (Z.leb_spec 0 k) as [_|]; [|lia].
    destruct (lookup_lt_is_Some_2
                [Goblin; Orc; Skeleton; Zombie; Rat; Spider; Dragon]
                (Z.to_nat k)) as [ty Hty]; [simpl; lia|].
    rewrite Hty. simpl.
    edestruct IH as (g' & new & Hrun & Hen & Hpl);
      [|rewrite Hrun]; [by eexists|].
    simpl in Hen. eexists g', (_ :: new). split; [done|].
    split; [by rewrite Hen, <- app_assoc|].
    constructor; [|done]. by destruct ty.
Qed.

(** X13: with a generator and a grid of at least 3 by 3, [spawnEnemies]
    returns, appends exactly [count] enemies to those already there, and
    puts each new one on a cell of the grid off its outer border:
    1 <= x <= MAP_WIDTH - 2 and 1 <= y <= MAP_HEIGHT - 2. *)
Theorem spawnEnemies_inside_border (count : Z) (g : Game.t R) :
  is_Some (Game.m_generator g) ->
  3 <= MAP_WIDTH <= INT_MAX -> 3 <= MAP_HEIGHT <= INT_MAX ->
  exists g' new,
    Game.spawnEnemies count g = Some g'
    /\ Game.m_enemies g' = Game.m_enemies g ++ new
    /\ length new = Z.to_nat count
    /\ Forall (fun e => 1 <= (Enemy.pos e).1 <= MAP_WIDTH - 2
                        /\ 1 <= (Enemy.pos e).2 <= MAP_HEIGHT - 2) new.
Proof.
  intros Hgen Hw Hh. unfold Game.spawnEnemies.
  assert (int_sub MAP_WIDTH 2 = MAP_WIDTH - 2) as Ew
    by (apply int_sub_exact; unfold in_int, INT_MIN, INT_MAX in *; lia).
  assert (int_sub MAP_HEIGHT 2 = MAP_HEIGHT - 2) as Eh
    by (apply int_sub_exact; unfold in_int, INT_MIN, INT_MAX in *; lia).
  destruct (spawnEnemies_loop_places (Z.to_nat count) g Hgen)
    as (g' & new & Hrun & Hen & Hpl); [lia..|].
  destruct (spawnEnemies_loop_spec (Z.to_nat count) g Hgen)
    as (g1 & new1 & Hrun1 & Hen1 & Hlen & _).
  rewrite Hrun in Hrun1. injection Hrun1 as <-.
  rewrite Hen in Hen1. apply app_inv_head in Hen1 as <-.
  exists g', new. rewrite Ew, Eh in Hpl. done.
Qed.
End SpawnPlaces.

(** ** Sessions, further *)

Section SessionFurther.
Context `{Constants} {R : Type} `{!RandomSource R}.

#[local] Arguments Game.spawnEnemies_loop : simpl never.
#[local] Arguments Game.spawnItems_loop : simpl never.

Lemma spawnEnemies_loop_floor (n : nat) (g g' : Game.t R) :
  Game.spawnEnemies_loop n g = Some g' ->
  Game.m_floorItems g' = Game.m_floorItems g.
Proof.
  intros Hrun. destruct n as [|n]; [by injection Hrun as <-|].
  assert (is_Some (Game.m_generator g)) as Hgen.
  { unfold Game.spawnEnemies_loop in Hrun.
    destruct (Game.m_generator g); [by eexists|done]. }
  destruct (spawnEnemies_loop_spec (S n) g Hgen)
    as (g1 & new & Hrun1 & _ & _ & _ & _ & _ & _ & _ & _ & Hfl & _).
  rewrite Hrun in Hrun1. by injection Hrun1 as <-.
Qed.

Lemma spawnItems_loop_floor (n : nat) (g g' : Game.t R) :
  Game.spawnItems_loop n g = Some g' ->
  Game.m_floorItems g' = Game.m_floorItems g ++ replicate n health_potion.
Proof.
  intros Hrun.
  destruct n as [|n]; [injection Hrun as <-; by rewrite app_nil_r|].
  assert (is_Some (Game.m_generator g)) as Hgen.
  { unfold Game.spawnItems_loop in Hrun.
    destruct (Game.m_generator g); [by eexists|done]. }
  destruct (spawnItems_loop_spec (S n) g Hgen) as (g1 & Hrun1 & Hfl & _).
  rewrite Hrun in Hrun1. by injection Hrun1 as <-.
Qed.

Lemma nextLevel_floor (g g' : Game.t R) :
  Game.nextLevel g = Some g' ->
  Game.m_floorItems g'
  = Game.m_floorItems g ++ replicate 3 health_potion.
Proof.
  intros Hrun.
  destruct (Game.m_player g) as [p|] eqn:Hp;
    [|by unfold Game.nextLevel in Hrun; rewrite Hp in Hrun].
  destruct (Game.m_generator g) as [gen|] eqn:Hgen;
    [|by unfold Game.nextLevel in Hrun; rewrite Hp in Hrun; simpl in Hrun;
         rewrite Hgen in Hrun].
  destruct (nextLevel_spec g p gen Hp Hgen)
    as (g1 & Hrun1 & _ & _ & _ & _ & Hfl & _).
  rewrite Hrun in Hrun1. by injection Hrun1 as <-.
Qed.

Lemma newGame_floor (name : string) (g g' : Game.t R) :
  Game.newGame name g = Some g' ->
  Game.m_floorItems g'
  = Game.m_floorItems g ++ replicate 3 health_potion.
Proof.
  unfold Game.newGame, Game.spawnEnemies, Game.spawnItems. simpl.
  destruct (Game.m_generator g) as [gen|]; [|done]. simpl.
  destruct (DungeonGenerator.generate MAP_WIDTH MAP_HEIGHT gen) as [map gen'].
  destruct (Game.spawnEnemies_loop _ _) as [g1|] eqn:Hrun1; [|done]. simpl.
  destruct (Game.spawnItems_loop _ g1) as [g2|] eqn:Hrun2; [|done]. simpl.
  intros [= <-]. simpl.
  rewrite (spawnItems_loop_floor _ _ _ Hrun2).
  by rewrite (spawnEnemies_loop_floor _ _ _ Hrun1).
Qed.

Lemma loadGame_floor
    (filename : string) (fs : FileSystem) (b : bool) (g g' : Game.t R) :
  Game.loadGame filename fs g = Some (b, g') ->
  Game.m_floorItems g' = Game.m_floorItems g.
Proof.
  unfold Game.loadGame, Game.spawnEnemies.
  destruct (files fs !! filename) as [content|]; [|by intros [= <- <-]].
  destruct (IStream.getline _ _) as [name file0].
  destruct (IStream.extract_int file0) as [hp file1].
  destruct (IStream.extract_int file1) as [maxHp file2].
  destruct (IStream.extract_int file2) as [atk file3].
  destruct (IStream.extract_int file3) as [def file4].
  destruct (IStream.extract_int file4) as [lvl file5].
  destruct (IStream.extract_int file5) as [exp file6].
  destruct (IStream.extract_int file6) as [gold file7].
  destruct (IStream.extract_int file7) as [dlvl file8].
  destruct hp as [hp|]; [|done]. destruct maxHp as [maxHp|]; [|done].
  destruct atk as [atk|]; [|done]. destruct def as [def|]; [|done].
  destruct lvl as [lvl|]; [|done]. destruct exp as [exp|]; [|done].
  destruct gold as [gold|]; [|done]. destruct dlvl as [dlvl|]; [|done].
  simpl.
  destruct (Game.m_generator g) as [gen|]; [|done]. simpl.
  destruct (DungeonGenerator.generate MAP_WIDTH MAP_HEIGHT gen) as [map gen'].
  destruct (Game.spawnEnemies_loop _ _) as [g1|] eqn:Hrun1; [|done]. simpl.
  intros [= <- <-]. simpl. by rewrite (spawnEnemies_loop_floor _ _ _ Hrun1).
Qed.

Lemma handleMovement_floor (dir : Direction) (g g' : Game.t R) :
  Game.handleMovement dir g = Some g' ->
  Game.m_floorItems g `prefix_of` Game.m_floorItems g'.
Proof.
  intros Hrun.
  destruct (Game.m_player g) as [p|] eqn:Hp; cycle 1.
  { unfold Game.handleMovement in Hrun. rewrite Hp in Hrun.
    by injection Hrun as <-. }
  destruct (Game.m_map g) as [map|] eqn:Hm; cycle 1.
  { unfold Game.handleMovement in Hrun. rewrite Hp, Hm in Hrun.
    by injection Hrun as <-. }
  destruct (Map.getTile map (Player.pos (Player.move dir p).1).1
              (Player.pos (Player.move dir p).1).2) as [tile|] eqn:Ht; cycle 1.
  { by rewrite (handleMovement_off_grid dir g p map Hp Hm Ht) in Hrun. }
  rewrite (handleMovement_resolve dir g p map tile Hp Hm Ht) in Hrun.
  destruct (arrival_frame (Player.pos (Player.move dir p).1)
              (Game.set_player (Some (Player.move dir p).1) g)
              (Player.move dir p).1 eq_refl)
    as (g2 & p2 & Hg2 & _ & _ & _ & _ & _ & Hfl).
  rewrite Hg2 in Hrun. simpl in Hrun, Hfl.
  destruct (decide (Tile.type tile = StairsDown)).
  - rewrite (nextLevel_floor _ _ Hrun), Hfl. by apply prefix_app_r.
  - injection Hrun as <-. by rewrite Hfl.
Qed.

(** X14: no operation of the session ever takes an item off the floor:
    across any sequence of calls, [shutdown] and [newGame] included, the
    floor items a session had are still there, in front of whatever was
    dropped since. *)
Theorem floor_items_are_never_removed (g g' : Game.t R) :
  rtc session_step g g' ->
  Game.m_floorItems g `prefix_of` Game.m_floorItems g'.
Proof.
  induction 1 as [g|g g1 g' Hstep _ IH]; [done|].
  etrans; [|exact IH]. clear IH.
  destruct Hstep as [engine g|g|g|name g g1 Hrun|filename fs b g g1 Hrun
                    |g|dir g g1 Hrun]; try done.
  - rewrite (newGame_floor _ _ _ Hrun). by apply prefix_app_r.
  - by rewrite (loadGame_floor _ _ _ _ _ Hrun).
  - unfold Game.update, Game.removeDeadEnemies.
    by destruct (list_find _ _) as [[i e]|].
  - by apply (handleMovement_floor dir).
Qed.

(** X15: [newGame] on a session that has its generator returns and starts
    on top of what is there: the enemies of the session stay and five new
    ones follow them, three potions follow the floor items, and the id
    counter moves on by six (the player and five enemies). *)
Theorem newGame_keeps_previous_level (name : string) (g : Game.t R) :
  is_Some (Game.m_generator g) ->
  exists g' new,
    Game.newGame name g = Some g'
    /\ Game.m_enemies g' = Game.m_enemies g ++ new
    /\ length new = 5%nat
    /\ Game.m_floorItems g'
       = Game.m_floorItems g ++ replicate 3 health_potion
    /\ Game.m_nextEntityId g' = (Game.m_nextEntityId g + 6)%N.
Proof.
  intros [gen Hgen].
  destruct (newGame_spec name g gen Hgen)
    as (g' & new & Hrun & _ & _ & _ & _ & Hen & Hlen & _).
  exists g', new. split; [done|]. split; [done|]. split; [done|].
  split; [by apply (newGame_floor name)|].
  revert Hrun. unfold Game.newGame, Game.spawnEnemies, Game.spawnItems. simpl.
  rewrite Hgen. simpl.
  destruct (DungeonGenerator.generate MAP_WIDTH MAP_HEIGHT gen) as [map gen'].
  change (Z.to_nat 5) with 5%nat. change (Z.to_nat 3) with 3%nat.
  edestruct (spawnEnemies_loop_ids 5) as (g1 & new1 & Hrun1 & _ & _ & Hn1);
    [|rewrite Hrun1]; [by eexists|].
  simpl in Hn1. simpl.
  edestruct (spawnItems_loop_spec 3 g1) as (g2 & Hrun2 & _ & _ & Hn2 & _);
    [|rewrite Hrun2].
  { destruct (spawnEnemies_loop_spec 5
                (Game.set_player
                   (Some (Player.set_pos Game.spawn_offset
                            (Player.new (Game.m_nextEntityId g) name (5, 5))))
                   (Game.set_map (Some map)
                      (Game.set_generator (Some gen')
                         (Game.set_player
                            (Some (Player.new (Game.m_nextEntityId g) name (5, 5)))
                            (Game.set_nextEntityId (Game.m_nextEntityId g + 1)%N
                               g))))))
      as (g1' & ? & Hrun1' & _ & _ & _ & Hg & _); [by eexists|].
    rewrite Hrun1 in Hrun1'. by injection Hrun1' as <-. }
  simpl. intros [= <-]. simpl. rewrite Hn2, Hn1. lia.
Qed.
End SessionFurther.

(** ** Where the player is put *)

Section Arrival.
Context `{Constants} {R : Type} `{!RandomSource R}.

#[local] Arguments Game.spawnEnemies_loop : simpl never.
#[local] Arguments Game.spawnItems_loop : simpl never.

(** On a generated map a cell is walkable exactly when it is in the
    room. *)
Lemma generate_walkable (w h : Z) (gen : DungeonGenerator.t R) (x y : Z) :
  2 <= w <= INT_MAX -> 2 <= h <= INT_MAX ->
  Map.isWalkable (DungeonGenerator.generate w h gen).1 x y = true
  <-> in_room w h x y.
Proof.
  intros Hw Hh.
  destruct (generate_tiles w h gen Hw Hh) as (sx & sy & _ & Hs & Ew & Eh & Hget).
  unfold Map.isWalkable, Map.isValidPosition. rewrite Ew, Eh, Hget.
  assert (in_room w h x y -> 0 <= x < w /\ 0 <= y < h) as Hinside.
  { clear Hget Hs. unfold in_room, INT_MAX in *. intros [Hx Hy].
    assert (0 <= w ÷ 4 /\ w ÷ 4 + w ÷ 2 <= w) by quot_lia.
    assert (0 <= h ÷ 4 /\ h ÷ 4 + h ÷ 2 <= h) by quot_lia. lia. }
  destruct (Z.leb_spec 0 x), (Z.ltb_spec x w), (Z.leb_spec 0 y),
    (Z.ltb_spec y h); simpl;
    try (split; [done|intros Hr; apply Hinside in Hr; lia]).
  rewrite decide_True by lia.
  repeat case_decide; simpl; try done.
  destruct_and!; subst. done.
Qed.

Lemma spawn_offset_in_room :
  4 <= MAP_WIDTH <= INT_MAX -> 4 <= MAP_HEIGHT <= INT_MAX ->
  in_room MAP_WIDTH MAP_HEIGHT Game.spawn_offset.1 Game.spawn_offset.2.
Proof.
  intros Hw Hh. unfold Game.spawn_offset, in_room. simpl.
  rewrite !int_add_exact
    by (unfold in_int, INT_MIN, INT_MAX in *; quot_lia).
  unfold INT_MAX in *. quot_lia.
Qed.

(** X16: on a grid of at least 4 by 4, [newGame] and the descent put the
    player on a walkable cell of the new map (a floor cell of the room,
    or the stairway itself). *)
Theorem player_arrives_on_walkable_cell (g : Game.t R) :
  4 <= MAP_WIDTH <= INT_MAX -> 4 <= MAP_HEIGHT <= INT_MAX ->
  is_Some (Game.m_generator g) ->
  (forall name, exists g' p' map',
      Game.newGame name g = Some g'
      /\ Game.m_player g' = Some p' /\ Game.m_map g' = Some map'
      /\ Map.isWalkable map' (Player.pos p').1 (Player.pos p').2 = true)
  /\ (is_Some (Game.m_player g) -> exists g' p' map',
      Game.nextLevel g = Some g'
      /\ Game.m_player g' = Some p' /\ Game.m_map g' = Some map'
      /\ Map.isWalkable map' (Player.pos p').1 (Player.pos p').2 = true).
Proof.
  intros Hw Hh [gen Hgen].
  pose proof (spawn_offset_in_room Hw Hh) as Hroom.
  apply (generate_walkable MAP_WIDTH MAP_HEIGHT gen) in Hroom; [|lia..].
  split.
  - intros name.
    destruct (newGame_spec name g gen Hgen) as (g' & new & Hrun & Hp & Hm & _).
    by eexists g', _, _.
  - intros [p Hp].
    destruct (nextLevel_spec g p gen Hp Hgen) as (g' & Hrun & Hp' & Hm & _).
    by eexists g', _, _.
Qed.

(** X17: a [loadGame] that returns [true] leaves the player on the cell
    (5, 5) the constructor was given, not on the spawn cell, with the id
    the counter had and an empty inventory; it keeps the enemies of the
    session and appends five, and leaves the log and the floor items as
    they were.  On the new map the cell (5, 5) is walkable exactly when
    the room reaches it, which from a width or a height of 24 on it does
    not: the loaded player then stands in a wall. *)
Theorem loadGame_leaves_player_at_5_5
    (filename : string) (fs : FileSystem) (g g' : Game.t R) :
  Game.loadGame filename fs g = Some (true, g') ->
  exists p' map' new,
    Game.m_player g' = Some p'
    /\ Player.pos p' = (5, 5)
    /\ Player.id p' = Game.m_nextEntityId g
    /\ Player.inventory p' = []
    /\ Game.m_map g' = Some map'
    /\ Game.m_enemies g' = Game.m_enemies g ++ new
    /\ length new = 5%nat
    /\ Game.m_messages g' = Game.m_messages g
    /\ Game.m_floorItems g' = Game.m_floorItems g
    /\ Game.m_state g' = Playing
    /\ (2 <= MAP_WIDTH <= INT_MAX -> 2 <= MAP_HEIGHT <= INT_MAX ->
        (Map.isWalkable map' 5 5 = true <-> in_room MAP_WIDTH MAP_HEIGHT 5 5)
        /\ (24 <= MAP_WIDTH \/ 24 <= MAP_HEIGHT ->
            Map.isWalkable map' 5 5 = false)).
Proof.
  unfold Game.loadGame, Game.spawnEnemies.
  destruct (files fs !! filename) as [content|]; [|done].
  destruct (IStream.getline _ _) as [name file0].
  destruct (IStream.extract_int file0) as [hp file1].
  destruct (IStream.extract_int file1) as [maxHp file2].
  destruct (IStream.extract_int file2) as [atk file3].
  destruct (IStream.extract_int file3) as [def file4].
  destruct (IStream.extract_int file4) as [lvl file5].
  destruct (IStream.extract_int file5) as [exp file6].
  destruct (IStream.extract_int file6) as [gold file7].
  destruct (IStream.extract_int file7) as [dlvl file8].
  destruct hp as [hp|]; [|done]. destruct maxHp as [maxHp|]; [|done].
  destruct atk as [atk|]; [|done]. destruct def as [def|]; [|done].
  destruct lvl as [lvl|]; [|done]. destruct exp as [exp|]; [|done].
  destruct gold as [gold|]; [|done]. destruct dlvl as [dlvl|]; [|done].
  simpl.
  destruct (Game.m_generator g) as [gen|] eqn:Hgen; [|done]. simpl.
  pose proof (generate_walkable MAP_WIDTH MAP_HEIGHT gen 5 5) as Hwalk.
  destruct (DungeonGenerator.generate MAP_WIDTH MAP_HEIGHT gen) as [map gen'].
  change (Z.to_nat 5) with 5%nat.
  edestruct (spawnEnemies_loop_spec 5)
    as (g1 & new & Hrun & Hen & Hlen & _ & _ & _ & Hp1 & Hm1 & _ & Hf1 & Hmsg1);
    [|rewrite Hrun]; [by eexists|].
  simpl in Hen, Hp1, Hm1, Hf1, Hmsg1. simpl. intros [= <-]. simpl.
  eexists _, map, new. rewrite Hp1, Hm1, Hen, Hf1, Hmsg1.
  repeat (split; [done|]). intros Hw Hh. simpl in Hwalk.
  split; [by apply Hwalk|]. intros Hbig.
  destruct (Map.isWalkable map 5 5); [|done].
  destruct Hwalk as [Hin _]; [done..|]. specialize (Hin eq_refl).
  unfold in_room in Hin. exfalso. quot_lia.
Qed.

(** X18: [loadGame] answers [false] only for a file it cannot open, and
    then leaves the session as it is; a file that opens but does not hold
    the name and the eight numbers is never reported. *)
Theorem loadGame_false_only_without_file
    (filename : string) (fs : FileSystem) (g g' : Game.t R) :
  Game.loadGame filename fs g = Some (false, g')
  <-> files fs !! filename = None /\ g' = g.
Proof.
  unfold Game.loadGame, Game.spawnEnemies.
  destruct (files fs !! filename) as [content|]; cycle 1.
  { split; [by intros [= <-]|by intros [_ ->]]. }
  split; [|by intros [[=] _]].
  destruct (IStream.getline _ _) as [name file0].
  destruct (IStream.extract_int file0) as [hp file1].
  destruct (IStream.extract_int file1) as [maxHp file2].
  destruct (IStream.extract_int file2) as [atk file3].
  destruct (IStream.extract_int file3) as [def file4].
  destruct (IStream.extract_int file4) as [lvl file5].
  destruct (IStream.extract_int file5) as [exp file6].
  destruct (IStream.extract_int file6) as [gold file7].
  destruct (IStream.extract_int file7) as [dlvl file8].
  destruct hp as [hp|]; [|done]. destruct maxHp as [maxHp|]; [|done].
  destruct atk as [atk|]; [|done]. destruct def as [def|]; [|done].
  destruct lvl as [lvl|]; [|done]. destruct exp as [exp|]; [|done].
  destruct gold as [gold|]; [|done]. destruct dlvl as [dlvl|]; [|done].
  simpl.
  destruct (Game.m_generator g) as [gen|]; [|done]. simpl.
  destruct (DungeonGenerator.generate MAP_WIDTH MAP_HEIGHT gen) as [map gen'].
  by destruct (Game.spawnEnemies_loop _ _).
Qed.
End Arrival.

(** ** One exchange and the end of the game *)

Section GameOver.
Context `{Constants} {R : Type} `{!RandomSource R}.

(** X20: an exchange changes no enemy but the one fought, and ends the
    game only by the enemy's blow: afterwards the state is [GameOver]
    exactly when it was so before or the enemy survived the hit and left
    the player with health 0 or less; otherwise the state is as it was. *)
Theorem handleCombat_ends_game_by_retaliation
    (g g' : Game.t R) (i : nat) (p : Player.t) (e : Enemy.t) :
  Game.m_player g = Some p ->
  Game.m_enemies g !! i = Some e ->
  Game.handleCombat i g = Some g' ->
  let e' := Enemy.takeDamage (Player.attackPower p) e in
  Game.m_enemies g' = <[i := e']> (Game.m_enemies g)
  /\ exists p',
       Game.m_player g' = Some p'
       /\ (Game.m_state g' = GameOver
           <-> Game.m_state g = GameOver
               \/ (0 < Enemy.health e' /\ Player.health p' <= 0))
       /\ (Game.m_state g' <> GameOver -> Game.m_state g' = Game.m_state g).
Proof.
  intros Hp He. unfold Game.handleCombat. rewrite Hp, He. simpl.
  destruct (Enemy.isAlive _) eqn:Hal.
  - destruct (Player.isAlive _) eqn:Hpl; simpl; intros [= <-]; simpl;
      (split; [done|]); eexists; (split; [done|]);
      unfold Enemy.isAlive, Player.isAlive in *; simpl in *.
    + split; [|done]. split; [by left|]. intros [?|[_ ?]]; [done|lia].
    + split; [|done]. split; [|done]. intros _. right. lia.
  - intros [= <-]. simpl. split; [done|]. eexists. split; [done|].
    unfold Enemy.isAlive in Hal. simpl in *.
    split; [|done]. split; [by left|]. intros [?|[? _]]; [done|lia].
Qed.
End GameOver.

(** ** What is drawn *)

Lemma append_assoc_s (s t u : string) : (s +:+ t) +:+ u = s +:+ (t +:+ u).
Proof.
  induction s as [|c s IH]; [by rewrite !append_empty|].
  by rewrite !append_String, IH.
Qed.

Lemma append_empty_r (s : string) : s +:+ "" = s.
Proof.
  induction s as [|c s IH]; [done|]. by rewrite append_String, IH.
Qed.


Lemma symbols_snoc (l : list Tile.t) (t : Tile.t) :
  String.string_of_list_ascii (Tile.symbol <$> (l ++ [t]))
  = String.string_of_list_ascii (Tile.symbol <$> l) +:+ String (Tile.symbol t) "".
Proof.
  induction l as [|a l IH]; [done|].
  cbn [fmap list_fmap app String.string_of_list_ascii] in *.
  by rewrite append_String, <- IH.
Qed.



Lemma rows_text_snoc (rows : list (list Tile.t)) (row : list Tile.t) :
  foldr (fun row s => row_text row +:+ s) "" (rows ++ [row])
  = foldr (fun row s => row_text row +:+ s) "" rows +:+ row_text row.
Proof.
  induction rows as [|r rows IH]; simpl.
  - by rewrite append_empty, append_empty_r.
  - by rewrite IH, append_assoc_s.
Qed.

Lemma seqZ_to_nat (n : Z) : seqZ 0 (n - 0) = seqZ 0 (Z.of_nat (Z.to_nat n)).
Proof.
  rewrite Z.sub_0_r. destruct (Z.le_gt_cases 0 n) as [Hn|Hn].
  - by rewrite Z2Nat.id.
  - rewrite !seqZ_nil; [done|lia..].
Qed.

Section Drawing.
Context `{Constants} {R : Type} `{!RandomSource R}.

Lemma renderMap_row (m : Map.t) (y : Z) (row : list Tile.t) (out : string) :
  grid_ok m -> 0 <= y -> Map.m_tiles m !! Z.to_nat y = Some row ->
  for_range 0 (Map.m_width m)
    (fun x out =>
       out ← out;
       tile ← Map.getTile m x y;
       Some (out +:+ String (Tile.symbol tile) ""))
    (Some out)
  = Some (out +:+ String.string_of_list_ascii (Tile.symbol <$> row)).
Proof.
  intros [_ Hw] Hy Hrow. unfold for_range.
  rewrite seqZ_to_nat, <- (Hw _ _ Hrow).
  rewrite <- (firstn_all row) at 2.
  assert (length row <= length row)%nat as Hk by lia. revert Hk.
  generalize (length row) at 1 3 4. intros k.
  induction k as [|k IH]; intros Hk.
  - simpl. by rewrite append_empty_r.
  - rewrite seqZ_S, foldl_snoc, IH by lia. simpl.
    destruct (lookup_lt_is_Some_2 row k) as [tile Htile]; [lia|].
    unfold Map.getTile. rewrite Z.add_0_l.
    destruct (Z.leb_spec 0 (Z.of_nat k)) as [_|]; [|lia].
    destruct (Z.leb_spec 0 y) as [_|]; [|lia]. simpl.
    rewrite Hrow. simpl. rewrite Nat2Z.id, Htile. simpl.
    rewrite (take_S_r _ _ _ Htile), symbols_snoc.
    by rewrite append_assoc_s.
Qed.

Lemma renderMap_grid (g : Game.t R) (m : Map.t) :
  Game.m_map g = Some m -> grid_ok m ->
  Game.renderMap g = Some (map_text m).
Proof.
  intros Hm Hok. unfold Game.renderMap. rewrite Hm.
  pose proof Hok as [Hh _]. unfold for_range at 1. unfold map_text.
  rewrite (seqZ_to_nat (Map.m_height m)), <- Hh.
  rewrite <- (firstn_all (Map.m_tiles m)) at 2.
  assert (length (Map.m_tiles m) <= length (Map.m_tiles m))%nat as Hk by lia.
  revert Hk. generalize (length (Map.m_tiles m)) at 1 3 4. intros k.
  induction k as [|k IH]; intros Hk; [done|].
  rewrite seqZ_S, foldl_snoc, IH by lia.
  destruct (lookup_lt_is_Some_2 (Map.m_tiles m) k) as [row Hrow]; [lia|].
  cbn [mbind option_bind]. rewrite Z.add_0_l.
  rewrite (renderMap_row m (Z.of_nat k) row) by (rewrite ?Nat2Z.id; done || lia).
  cbn [mbind option_bind].
  rewrite (take_S_r _ _ _ Hrow), rows_text_snoc. unfold row_text.
  by rewrite append_assoc_s.
Qed.


Lemma renderEntities_alive_ones (out : string) (es : list Enemy.t) :
  foldl (fun out e =>
           if Enemy.isAlive e
           then out +:+ String escape "[" +:+ to_string (int_add (Enemy.pos e).2 1)
                +:+ ";" +:+ to_string (int_add (Enemy.pos e).1 1) +:+ "H"
                +:+ String (Enemy.symbol e) ""
           else out)
        out (alive_ones es)
  = foldl (fun out e =>
           if Enemy.isAlive e
           then out +:+ String escape "[" +:+ to_string (int_add (Enemy.pos e).2 1)
                +:+ ";" +:+ to_string (int_add (Enemy.pos e).1 1) +:+ "H"
                +:+ String (Enemy.symbol e) ""
           else out)
        out es.
Proof.
  revert out. induction es as [|e es IH]; intros out; [done|].
  unfold alive_ones in *. rewrite filter_cons.
  destruct (decide (Enemy.isAlive e = true)) as [Hal|Hal].
  - cbn [foldl]. by rewrite IH.
  - cbn [foldl]. rewrite IH. by destruct (Enemy.isAlive e).
Qed.


(** X22: the dead are not drawn: two sessions with the same player and
    the same live enemies, in the same order, give the same
    [renderEntities]; so an [update] changes nothing of what [render]
    prints. *)
Theorem render_skips_corpses (g g' : Game.t R) :
  (Game.m_player g' = Game.m_player g ->
   alive_ones (Game.m_enemies g') = alive_ones (Game.m_enemies g) ->
   Game.renderEntities g' = Game.renderEntities g)
  /\ Game.render (Game.update g) = Game.render g.
Proof.
  assert (forall g1 g2 : Game.t R,
             Game.m_player g1 = Game.m_player g2 ->
             alive_ones (Game.m_enemies g1) = alive_ones (Game.m_enemies g2) ->
             Game.renderEntities g1 = Game.renderEntities g2) as Hent.
  { intros g1 g2 Hp Hal. unfold Game.renderEntities. rewrite Hp.
    by rewrite <- (renderEntities_alive_ones _ (Game.m_enemies g1)),
         <- (renderEntities_alive_ones _ (Game.m_enemies g2)), Hal. }
  split; [apply Hent|].
  unfold Game.render.
  rewrite (Hent (Game.update g) g);
    [|by rewrite update_enemies
     |rewrite update_enemies; simpl; apply alive_ones_reap].
  by rewrite update_enemies.
Qed.
(** X23: in every session reached from the constructor by the public
    operations [render] returns: the drawing loop never indexes the grid
    out of range. *)
Theorem reachable_render_defined (g : Game.t R) :
  reachable g -> is_Some (Game.render g).
Proof.
  intros Hr. destruct (reachable_inv g Hr) as (_ & Hmap & _).
  unfold Game.render. destruct (Game.m_map g) as [m|] eqn:Hm.
  - destruct (Hmap m eq_refl) as (Hb & _).
    rewrite (renderMap_grid g m Hm) by by apply built_grid_ok.
    by eexists.
  - unfold Game.renderMap. rewrite Hm. by eexists.
Qed.
End Drawing.

(** * The further properties at work *)

Section FurtherSessions.
#[local] Existing Instance small_grid.

Lemma one_cell_room_built : built one_cell_room.
Proof. apply built_setTile, built_new. Qed.

Lemma stairs_ahead_reachable : reachable stairs_ahead.
Proof.
  unfold reachable.
  eapply rtc_l; [apply (step_initialize (DungeonGenerator.make 0 [3; 1]))|].
  apply rtc_once. apply (step_newGame "Hero"). by vm_compute.
Qed.

(** X1 at work: a heal of 20 takes the hero from 50 to at most 100 and
    not below 50; heals of 10 and 20 are one heal of 30. *)
Lemma heal_capped_and_additive_witness :
  Player.health (Player.heal 20 wounded) <= 100
  /\ 50 <= Player.health (Player.heal 20 wounded)
  /\ Player.heal 20 (Player.heal 10 wounded) = Player.heal 30 wounded.
Proof.
  destruct (heal_capped_and_additive wounded 20 10) as (Hcap & Hup & Hsum).
  split; [exact Hcap|]. split.
  - apply Hup; [lia|int_bounds|simpl; lia].
  - apply Hsum; [lia|lia|int_bounds..].
Defined.

(** X2 at work: two potions offered to an empty inventory are kept. *)
Lemma addItem_keeps_first_21_witness :
  Player.inventory (addItems [health_potion; health_potion] hero)
  = [health_potion; health_potion].
Proof.
  rewrite (proj1 (addItem_keeps_first_21 hero [health_potion; health_potion]
                    ltac:(simpl; lia))).
  reflexivity.
Defined.

(** X3 at work: east and back west from (3, 3) ends on (4, 3). *)
Lemma move_there_and_back_witness :
  Player.pos (Player.move West (Player.move East hero).1).1 = (4, 3).
Proof.
  exact (proj1 (proj2 (proj2 (move_there_and_back hero
                                ltac:(int_bounds) ltac:(int_bounds)
                                ltac:(int_bounds) ltac:(int_bounds))))).
Defined.

(** X4 at work: the middle cell of [one_cell_room] is valid, so its tile
    is there. *)
Lemma built_map_is_sound_witness : is_Some (Map.getTile one_cell_room 1 1).
Proof.
  exact (proj1 (proj1 (built_map_is_sound one_cell_room 1 1
                         one_cell_room_built)) eq_refl).
Defined.

(** X5 at work: a stairway written on the middle cell is read back. *)
Lemma setTile_then_getTile_witness :
  Map.getTile (Map.setTile 1 1 StairsDown one_cell_room) 1 1
  = Some (canonical_tile StairsDown).
Proof.
  exact (proj1 (setTile_then_getTile 1 1 StairsDown one_cell_room
                  one_cell_room_built) eq_refl).
Defined.

(** X6 at work: [one_cell_room] cleared is the map the constructor
    builds. *)
Lemma clear_is_new_witness : Map.clear one_cell_room = Map.new 3 3.
Proof. exact (clear_is_new one_cell_room one_cell_room_built). Defined.

(** X7 at work: of the two dead dragons of [two_corpses] one update
    erases the first, the one between the goblins, and leaves the other. *)
Lemma update_reaps_one_corpse_witness :
  Game.update two_corpses
  = Game.set_enemies
      ([Enemy.new 10%N Goblin (1, 1)]
       ++ [Enemy.new 12%N Goblin (3, 3); Enemy.new 13%N Dragon (4, 4)])
      two_corpses.
Proof.
  exact (proj1 (update_reaps_one_corpse two_corpses 0)
           [Enemy.new 10%N Goblin (1, 1)] (Enemy.new 11%N Dragon (2, 2))
           [Enemy.new 12%N Goblin (3, 3); Enemy.new 13%N Dragon (4, 4)]
           eq_refl ltac:(by repeat constructor) eq_refl).
Defined.

(** X9 at work: the rat of [rat_ahead] dies of the hero's hit and the
    next update erases it. *)
Lemma kill_then_update_erases_it_witness :
  exists g',
    Game.handleCombat 0 rat_ahead = Some g'
    /\ Game.m_enemies (Game.update g') = delete 0%nat (Game.m_enemies rat_ahead).
Proof.
  exact (kill_then_update_erases_it rat_ahead 0 hero rat
           ltac:(by vm_compute) ltac:(by vm_compute) ltac:(by vm_compute)
           ltac:(int_bounds) ltac:(simpl; lia)).
Defined.

(** X10 at work on the session [stairs_ahead]. *)
Lemma reachable_log_bounded_witness :
  (length (Game.m_messages stairs_ahead) <= 5)%nat.
Proof. exact (reachable_log_bounded stairs_ahead stairs_ahead_reachable). Defined.

(** X11 at work on the session [stairs_ahead]. *)
Lemma reachable_ids_unique_witness :
  NoDup (Enemy.id <$> Game.m_enemies stairs_ahead).
Proof.
  exact (proj1 (reachable_ids_unique stairs_ahead stairs_ahead_reachable)).
Defined.

(** X12 at work: north of the hero of [stairs_ahead] lies (3, 2), on the
    grid, and the move returns. *)
Lemma reachable_move_defined_witness :
  is_Some (Game.handleMovement North stairs_ahead).
Proof.
  apply (proj2 (reachable_move_defined North stairs_ahead
                  stairs_ahead_reachable)).
  intros p Hp _.
  assert (Some p = Some hero) as Heq by (rewrite <- Hp; by vm_compute).
  injection Heq as ->. vm_compute. repeat split; by intros.
Defined.

(** X13 at work: two enemies spawned on the 8 by 8 grid. *)
Lemma spawnEnemies_inside_border_witness :
  exists g' new,
    Game.spawnEnemies 2 (scripted_game []) = Some g'
    /\ Game.m_enemies g' = Game.m_enemies (scripted_game []) ++ new
    /\ length new = 2%nat
    /\ Forall (fun e => 1 <= (Enemy.pos e).1 <= 6
                        /\ 1 <= (Enemy.pos e).2 <= 6) new.
Proof.
  exact (spawnEnemies_inside_border 2 (scripted_game [])
           ltac:(by eexists) ltac:(by vm_compute) ltac:(by vm_compute)).
Defined.

(** X14 at work: the potions of [stairs_ahead] survive a [shutdown]. *)
Lemma floor_items_are_never_removed_witness :
  Game.m_floorItems stairs_ahead
    `prefix_of` Game.m_floorItems (Game.shutdown stairs_ahead).
Proof.
  exact (floor_items_are_never_removed stairs_ahead
           (Game.shutdown stairs_ahead)
           (rtc_once _ _ (step_shutdown stairs_ahead))).
Defined.

(** X15 at work: a second [newGame] on [stairs_ahead] keeps its five
    enemies and adds five. *)
Lemma newGame_keeps_previous_level_witness :
  exists g' new,
    Game.newGame "Again" stairs_ahead = Some g'
    /\ Game.m_enemies g' = Game.m_enemies stairs_ahead ++ new
    /\ length new = 5%nat
    /\ Game.m_floorItems g'
       = Game.m_floorItems stairs_ahead ++ replicate 3 health_potion
    /\ Game.m_nextEntityId g' = (Game.m_nextEntityId stairs_ahead + 6)%N.
Proof.
  exact (newGame_keeps_previous_level "Again" stairs_ahead
           ltac:(exists (DungeonGenerator.make 0 []); by vm_compute)).
Defined.

(** X16 at work: the hero of a new game on the 8 by 8 grid. *)
Lemma player_arrives_on_walkable_cell_witness :
  exists g' p' map',
    Game.newGame "Hero" (scripted_game [3; 1]) = Some g'
    /\ Game.m_player g' = Some p' /\ Game.m_map g' = Some map'
    /\ Map.isWalkable map' (Player.pos p').1 (Player.pos p').2 = true.
Proof.
  assert (4 <= MAP_WIDTH <= INT_MAX) as Hw by (by vm_compute).
  assert (4 <= MAP_HEIGHT <= INT_MAX) as Hh by (by vm_compute).
  assert (is_Some (Game.m_generator (scripted_game [3; 1]))) as Hgen
    by (by eexists).
  exact (proj1 (player_arrives_on_walkable_cell (scripted_game [3; 1])
                  Hw Hh Hgen) "Hero").
Defined.

(** X17 at work: the hero loaded from [saved_hero] stands on (5, 5). *)
Lemma loadGame_leaves_player_at_5_5_witness :
  exists g' p',
    Game.loadGame "save" saved_hero (scripted_game []) = Some (true, g')
    /\ Game.m_player g' = Some p'
    /\ Player.pos p' = (5, 5)
    /\ Player.inventory p' = [].
Proof.
  destruct (loadGame_saved "save" saved_hero (scripted_game []) hero
              ltac:(apply lookup_insert_eq) ltac:(by eexists)
              ltac:(by vm_compute) ltac:(repeat constructor; int_bounds))
    as (g' & _ & Hload & _).
  destruct (loadGame_leaves_player_at_5_5 "save" saved_hero
              (scripted_game []) g' Hload)
    as (p' & map' & new & Hp & Hpos & _ & Hinv & _).
  exists g', p'.
  split; [exact Hload|]. split; [exact Hp|]. split; [exact Hpos|exact Hinv].
Defined.

(** X20 at work: the exchange with the goblin of [goblin_ahead] changes
    that goblin alone. *)
Lemma handleCombat_ends_game_by_retaliation_witness :
  exists g',
    Game.handleCombat 0 goblin_ahead = Some g'
    /\ Game.m_enemies g'
       = <[0%nat := Enemy.takeDamage 5 goblin]> (Game.m_enemies goblin_ahead).
Proof.
  destruct (handleCombat_defined 0 goblin_ahead hero goblin
              ltac:(by vm_compute) ltac:(by vm_compute)) as [g' Hrun].
  exists g'. split; [exact Hrun|].
  exact (proj1 (handleCombat_ends_game_by_retaliation goblin_ahead g' 0
                  hero goblin ltac:(by vm_compute) ltac:(by vm_compute)
                  Hrun)).
Defined.


(** X22 at work: the dead dragon of [dragon_ahead] is not drawn, erased
    or not. *)
Lemma render_skips_corpses_witness :
  Game.renderEntities (Game.update dragon_ahead)
  = Game.renderEntities dragon_ahead.
Proof.
  exact (proj1 (render_skips_corpses dragon_ahead (Game.update dragon_ahead))
           ltac:(by vm_compute) ltac:(by vm_compute)).
Defined.

(** X23 at work on the session [stairs_ahead]. *)
Lemma reachable_render_defined_witness : is_Some (Game.render stairs_ahead).
Proof.
  exact (reachable_render_defined stairs_ahead stairs_ahead_reachable).
Defined.
End FurtherSessions.
